(** * Sweeper: a shallow embedding of [contracts/Sweeper.sol]

    The contract pulls each listed ERC20 balance of the caller through a
    Permit2-style registry, hands it to an aggregator by a raw call and
    forwards the proceeds (or refunds).  Every collaborator is foreign,
    untrusted code, so the embedding is parametric in an environment
    [Env]: a world state [W] together with the behaviour of every contract
    the engine talks to.  The engine itself is a function in a small
    state-and-abort monad whose state carries the world, the events emitted
    so far and a ghost trace of the external interactions performed.

    What the embedding fixes.  The engine's own storage is not handed to
    foreign code: the only door into it during an invocation is a nested
    [sweepAndSwap], which foreign code receives as a callback ([Reentry]);
    the two owner-only setters are not callable from inside a batch.  The
    value sent along with the call is part of the world the invocation
    starts from. *)

From Stdlib Require Import ZArith List String Bool Lia.
From Stdlib Require Import Strings.Byte.
Import ListNotations.
Local Open Scope string_scope.
Local Open Scope list_scope.
Local Open Scope Z_scope.

Set Implicit Arguments.

(** ** Solidity value types *)

Definition address := Z.
Definition bytes := list byte.

Definition uint_max (bits : Z) : Z := 2 ^ bits - 1.
Definition is_uint (bits x : Z) : bool := (0 <=? x) && (x <=? uint_max bits).

(** Checked arithmetic of Solidity 0.8 on [uint256]: [None] is the
    arithmetic panic (code 0x11). *)
Definition checked_mul (a b : Z) : option Z :=
  if a * b <=? uint_max 256 then Some (a * b) else None.

Definition checked_pow (b e : Z) : option Z :=
  if b ^ e <=? uint_max 256 then Some (b ^ e) else None.

(** [abi.decode(data, (bool))]: the data must hold at least one 32-byte
    word and that word must be 0 or 1; anything else makes the decoder
    revert ([None]). *)
Fixpoint be_value (acc : Z) (bs : bytes) : Z :=
  match bs with
  | [] => acc
  | b :: bs' => be_value (acc * 256 + Z.of_N (Byte.to_N b)) bs'
  end.

Definition abi_decode_bool (data : bytes) : option bool :=
  if Nat.ltb (List.length data) 32 then None
  else
    let v := be_value 0 (firstn 32 data) in
    if v =? 0 then Some false
    else if v =? 1 then Some true
    else None.

Definition abi_word (v : Z) : bytes :=
  repeat x00 31 ++ [match Byte.of_N (Z.to_N v) with Some b => b | None => x00 end].

(** ** Calls, events, storage *)

(** The payload of a low-level call.  [Raw] is caller-supplied bytes that
    the engine forwards verbatim; the other constructors stand for the
    [abi.encodeWithSelector] payloads the engine builds itself. *)
Inductive calldata : Type :=
| Raw (payload : bytes)
| EncTransfer (to : address) (value : Z)
| EncApprove (spender : address) (value : Z)
| EncPermit2TransferFrom (from to token : address) (amount : Z).

(** The statement of [sweepAndSwap] that issues an external interaction. *)
Inductive Site : Type :=
| AtForwardPermit
| AtOracle
| AtUserBalance
| AtPull
| AtRefund
| AtApprove
| AtBalBefore
| AtAggregator
| AtEthSend
| AtBalAfter
| AtSettle.

(** Ghost trace: one entry per external interaction, in program order. *)
Inductive Interaction : Type :=
| Query (site : Site) (callee arg : address) (answer : option (list Z))
| Call (site : Site) (callee : address) (data : calldata) (value : Z)
       (ok : bool) (ret : bytes).

Inductive Event : Type :=
| Swept (user token : address) (amountIn : Z) (targetToken : address) (amountOut : Z)
| SweepFailed (user token : address) (reason : string).

Inductive Abort : Type :=
| Error (reason : string)      (* require / revert with a reason string *)
| Panic (code : Z)             (* 0x11 overflow, 0x32 index out of range *)
| Bubble.                      (* failed high-level call or ABI decoding *)

Record Storage : Type := mkStorage {
  _status : Z;
  owner : address;
  aggregator : address;
  priceOracle : address
}.

Definition with_status (s : Storage) (v : Z) : Storage :=
  mkStorage v (owner s) (aggregator s) (priceOracle s).

Record SweepArgs : Type := mkArgs {
  permit2 : address;
  permitCalldata : bytes;
  tokens : list address;
  minPricesUSD : list Z;
  maxPricesUSD : list Z;
  priceDecimals : Z;
  targetToken : address;
  swapCallData : list bytes;
  partialSuccess : bool
}.

Section Engine.

(** The world outside the engine: ledgers of every token, native balances,
    storage of every foreign contract. *)
Variable W : Type.

(** What an invocation of [sweepAndSwap] leaves behind.  On [Reverted] the
    platform discards every effect; the trace is ghost and is kept so that
    one can say what had been attempted. *)
Inductive Outcome : Type :=
| Returned (s : Storage) (w : W) (evs : list Event) (tr : list Interaction)
| Reverted (e : Abort) (tr : list Interaction).

(** A foreign contract may call back into the engine while it runs. *)
Definition Reentry : Type := address -> SweepArgs -> W -> Outcome.

(** Behaviour of the collaborators.  Views are static calls: they read the
    world and either answer or fail.  [call] is the EVM CALL instruction as
    seen by the engine: success flag, return data, new world. *)
Record Env : Type := mkEnv {
  getPriceUSD : W -> address -> address -> option (Z * Z);
  balanceOf : W -> address -> address -> option Z;
  nativeBalance : W -> address -> Z;
  call : Reentry -> address -> address -> calldata -> Z -> W -> bool * bytes * W
}.

Variable E : Env.

(** [address(this)]. *)
Variable this : address.

(** [abi.decode(_, (string))], used only to build a revert message. *)
Variable abi_decode_string : bytes -> option string.

(** ** The execution monad *)

Record Run : Type := mkRun {
  world : W;
  emitted : list Event;
  trace : list Interaction
}.

Inductive Result (A : Type) : Type :=
| Done (a : A) (r : Run)
| Fail (e : Abort) (tr : list Interaction).
Arguments Fail {A} e tr.

Definition M (A : Type) : Type := Run -> Result A.

Definition ret {A} (a : A) : M A := fun r => Done a r.

Definition bind {A B} (m : M A) (k : A -> M B) : M B :=
  fun r => match m r with
           | Done a r' => k a r'
           | Fail e tr => Fail e tr
           end.

Notation "x <- m ;; k" := (bind m (fun x => k))
  (at level 61, m at next level, right associativity).
Notation "' pat <- m ;; k" :=
  (bind m (fun x => match x with pat => k end))
  (at level 61, pat pattern, m at next level, right associativity).
Notation "m ;;; k" := (bind m (fun _ => k))
  (at level 61, right associativity).

Definition revert {A} (e : Abort) : M A := fun r => Fail e (trace r).

Definition require (b : bool) (reason : string) : M unit :=
  if b then ret tt else revert (Error reason).

Definition emit (ev : Event) : M unit :=
  fun r => Done tt (mkRun (world r) (emitted r ++ [ev]) (trace r)).

Definition log (i : Interaction) : M unit :=
  fun r => Done tt (mkRun (world r) (emitted r) (trace r ++ [i])).

Definition lift_option {A} (o : option A) (e : Abort) : M A :=
  match o with Some a => ret a | None => revert e end.

(** A high-level view call: a failing callee or a result that does not
    decode to the declared types reverts the caller. *)
Definition oracle_getPriceUSD (oracle token : address) : M (Z * Z) :=
  fun r =>
    match getPriceUSD E (world r) oracle token with
    | Some (price, decimals) =>
        (log (Query AtOracle oracle token (Some [price; decimals])) ;;;
         if is_uint 256 price && is_uint 8 decimals
         then ret (price, decimals)
         else revert Bubble) r
    | None => (log (Query AtOracle oracle token None) ;;; revert Bubble) r
    end.

Definition erc20_balanceOf (site : Site) (token holder : address) : M Z :=
  fun r =>
    match balanceOf E (world r) token holder with
    | Some v =>
        (log (Query site token holder (Some [v])) ;;;
         if is_uint 256 v then ret v else revert Bubble) r
    | None => (log (Query site token holder None) ;;; revert Bubble) r
    end.

Definition self_balance : M Z :=
  fun r => Done (nativeBalance E (world r) this) r.

(** A low-level [call]: never reverts the caller; a failed call leaves
    the world as it was. *)
Definition low_call (reenter : Reentry) (site : Site) (callee : address)
    (data : calldata) (value : Z) : M (bool * bytes) :=
  fun r =>
    let '(ok, res, w') := call E reenter this callee data value (world r) in
    Done (ok, res)
         (mkRun (if ok then w' else world r) (emitted r)
                (trace r ++ [Call site callee data value ok res])).

(** Calldata and memory array reads are bounds-checked. *)
Definition index {A} (l : list A) (i : nat) : M A :=
  lift_option (nth_error l i) (Panic 50).

(** ** Helpers of the contract *)

(** [_shortRevertReason] *)
Definition _shortRevertReason (returnData : bytes) : option string :=
  if Nat.ltb (List.length returnData) 68 then Some ""
  else abi_decode_string (skipn 4 returnData).

(** [_forwardPermit] *)
Definition _forwardPermit (reenter : Reentry) (permit2 : address)
    (permitCalldata : bytes) : M unit :=
  '(ok, res) <- low_call reenter AtForwardPermit permit2 (Raw permitCalldata) 0 ;;
  if ok then ret tt
  else
    match _shortRevertReason res with
    | Some why => revert (Error (String.append "PERMIT_CALL_FAILED:" why))
    | None => revert Bubble
    end.

(** [_callAggregator] *)
Definition _callAggregator (reenter : Reentry) (s : Storage) (data : bytes)
    : M (bool * bytes) :=
  low_call reenter AtAggregator (aggregator s) (Raw data) 0.

(** The condition both safe wrappers put under [require]:
    [success && (data.length == 0 || abi.decode(data, (bool)))].
    [None]: the decoder itself reverted. *)
Definition wrapper_verdict (success : bool) (data : bytes) : option bool :=
  if success then
    match data with
    | [] => Some true
    | _ => abi_decode_bool data
    end
  else Some false.

Definition wrapper_require (ok : bool) (data : bytes) (reason : string) : M unit :=
  match wrapper_verdict ok data with
  | Some b => require b reason
  | None => revert Bubble
  end.

(** [_safeTransfer] *)
Definition _safeTransfer (reenter : Reentry) (site : Site)
    (token to : address) (value : Z) : M unit :=
  '(success, data) <- low_call reenter site token (EncTransfer to value) 0 ;;
  wrapper_require success data "TRANSFER_FAILED".

(** [_safeApprove] *)
Definition _safeApprove (reenter : Reentry) (token spender : address) (value : Z)
    : M unit :=
  '(success, data) <- low_call reenter AtApprove token (EncApprove spender value) 0 ;;
  wrapper_require success data "APPROVE_FAILED".

(** [_permit2Transfer] *)
Definition _permit2Transfer (reenter : Reentry) (permit2 from to token : address)
    (amount : Z) : M bool :=
  '(ok, _) <- low_call reenter AtPull permit2
                (EncPermit2TransferFrom from to token amount) 0 ;;
  ret ok.

(** ** The price gate (lines 124-141 of [sweepAndSwap]) *)

(** Lines 129-134: bring the oracle's price to the caller's precision.
    [None] is the overflow panic of the checked [**] or [*]. *)
Definition normalizePrice (price decimals priceDecimals : Z) : option Z :=
  if decimals >? priceDecimals then
    match checked_pow 10 (decimals - priceDecimals) with
    | Some p => Some (price / p)
    | None => None
    end
  else if decimals <? priceDecimals then
    match checked_pow 10 (priceDecimals - decimals) with
    | Some p => checked_mul price p
    | None => None
    end
  else Some price.

Definition priceCheck (s : Storage) (a : SweepArgs) (i : nat) (token : address)
    : M bool :=
  if negb (priceOracle s =? 0) then
    '(price, decimals) <- oracle_getPriceUSD (priceOracle s) token ;;
    if price =? 0 then ret false
    else
      normalizedPrice <-
        lift_option (normalizePrice price decimals (priceDecimals a)) (Panic 17) ;;
      lo <- index (minPricesUSD a) i ;;
      if normalizedPrice <? lo then ret false
      else
        hi <- index (maxPricesUSD a) i ;;
        if normalizedPrice >? hi then ret false else ret true
  else ret true.

(** ** One iteration of the loop (lines 117-217) *)

(** [if (!partialSuccess) revert(reason); else continue;] *)
Definition revert_or_continue (a : SweepArgs) (reason : string) : M unit :=
  if negb (partialSuccess a) then revert (Error reason) else ret tt.

Definition sweepToken (reenter : Reentry) (s : Storage) (sender : address)
    (a : SweepArgs) (i : nat) : M unit :=
  token <- index (tokens a) i ;;
  okPrice <- priceCheck s a i token ;;
  if negb okPrice then
    emit (SweepFailed sender token "PRICE_OUT_OF_RANGE_OR_UNKNOWN") ;;;
    revert_or_continue a "PRICE_CHECK_FAILED"
  else
  amountIn <- erc20_balanceOf AtUserBalance token sender ;;
  if amountIn =? 0 then
    emit (SweepFailed sender token "ZERO_BALANCE") ;;;
    revert_or_continue a "ZERO_BALANCE"
  else
  pulled <- _permit2Transfer reenter (permit2 a) sender this token amountIn ;;
  if negb pulled then
    emit (SweepFailed sender token "PERMIT2_TRANSFER_FAILED") ;;;
    revert_or_continue a "PERMIT2_TRANSFER_FAILED"
  else
  data <- index (swapCallData a) i ;;
  if Nat.eqb (List.length data) 0 then
    _safeTransfer reenter AtRefund token sender amountIn ;;;
    emit (SweepFailed sender token "NO_SWAP_CALLDATA") ;;;
    revert_or_continue a "NO_SWAP_CALLDATA"
  else
  _safeApprove reenter token (aggregator s) amountIn ;;;
  balBefore <- (if negb (targetToken a =? 0)
                then erc20_balanceOf AtBalBefore (targetToken a) this
                else ret 0) ;;
  '(success, _) <- _callAggregator reenter s data ;;
  if negb success then
    emit (SweepFailed sender token "AGGREGATOR_CALL_FAILED") ;;;
    _safeTransfer reenter AtRefund token sender amountIn ;;;
    revert_or_continue a "AGGREGATOR_CALL_FAILED"
  else
  if targetToken a =? 0 then
    balanceEth <- self_balance ;;
    if balanceEth >? 0 then
      '(sent, _) <- low_call reenter AtEthSend sender (Raw []) balanceEth ;;
      if negb sent then
        emit (SweepFailed sender token "ETH_TRANSFER_FAILED") ;;;
        revert_or_continue a "ETH_TRANSFER_FAILED"
      else emit (Swept sender token amountIn (targetToken a) balanceEth)
    else emit (Swept sender token amountIn (targetToken a) 0)
  else
    balAfter <- erc20_balanceOf AtBalAfter (targetToken a) this ;;
    if balAfter >? balBefore then
      _safeTransfer reenter AtSettle (targetToken a) sender (balAfter - balBefore) ;;;
      emit (Swept sender token amountIn (targetToken a) (balAfter - balBefore))
    else
      _safeTransfer reenter AtRefund token sender amountIn ;;;
      emit (SweepFailed sender token "NO_TARGET_RECEIVED") ;;;
      revert_or_continue a "NO_TARGET_RECEIVED".

(** [for (uint256 i = 0; i < tokens.length; i++)]: [n] iterations are
    left, the next one is number [i]. *)
Fixpoint sweepLoop (reenter : Reentry) (s : Storage) (sender : address)
    (a : SweepArgs) (i n : nat) : M unit :=
  match n with
  | O => ret tt
  | S n' => sweepToken reenter s sender a i ;;; sweepLoop reenter s sender a (S i) n'
  end.

(** ** [sweepAndSwap] *)

Definition lengths_agree (a : SweepArgs) : bool :=
  Nat.eqb (List.length (tokens a)) (List.length (swapCallData a)) &&
  (Nat.eqb (List.length (tokens a)) (List.length (minPricesUSD a)) &&
   Nat.eqb (List.length (tokens a)) (List.length (maxPricesUSD a))).

Definition sweepAndSwap_body (reenter : Reentry) (s : Storage) (sender : address)
    (a : SweepArgs) : M unit :=
  require (Nat.eqb (List.length (tokens a)) (List.length (swapCallData a)))
          "ARRAY_LENGTH_MISMATCH" ;;;
  require (Nat.eqb (List.length (tokens a)) (List.length (minPricesUSD a)) &&
           Nat.eqb (List.length (tokens a)) (List.length (maxPricesUSD a)))
          "PRICE_ARRAY_MISMATCH" ;;;
  (if Nat.ltb 0 (List.length (permitCalldata a))
   then _forwardPermit reenter (permit2 a) (permitCalldata a)
   else ret tt) ;;;
  sweepLoop reenter s sender a 0 (List.length (tokens a)).

(** The [nonReentrant] modifier of [ReentrancyGuard].  An abort leaves the
    storage as the invocation found it. *)
Definition nonReentrant (s : Storage) (w : W) (body : Storage -> M unit) : Outcome :=
  if _status s =? 1 then
    let s2 := with_status s 2 in
    match body s2 (mkRun w [] []) with
    | Done _ r => Returned (with_status s2 1) (world r) (emitted r) (trace r)
    | Fail e tr => Reverted e tr
    end
  else Reverted (Error "REENTRANCY") [].

(** [sweepAndSwap] where foreign code that calls back meets [reenter]
    applied to the storage of that moment. *)
Definition sweepAndSwap_with (reenter : Storage -> Reentry) (s : Storage)
    (sender : address) (a : SweepArgs) (w : W) : Outcome :=
  nonReentrant s w (fun s2 => sweepAndSwap_body (reenter s2) s2 sender a).

(** The entry point.  [depth] is the call depth still available (the EVM
    allows 1024 nested frames): a callee of the engine runs one frame
    deeper, and with none left its call back cannot even start. *)
Fixpoint sweepAndSwap (depth : nat) (s : Storage) (sender : address)
    (a : SweepArgs) (w : W) {struct depth} : Outcome :=
  sweepAndSwap_with
    (fun s2 => match depth with
               | O => fun _ _ _ => Reverted Bubble []
               | S d => sweepAndSwap d s2
               end)
    s sender a w.

(** What foreign code reaches when it calls [sweepAndSwap] during an
    invocation running at [depth]. *)
Definition reentry (depth : nat) (s2 : Storage) : Reentry :=
  match depth with
  | O => fun _ _ _ => Reverted Bubble []
  | S d => sweepAndSwap d s2
  end.

(** A transaction: an abort discards every effect of the invocation. *)
Definition transact (depth : nat) (s : Storage) (sender : address)
    (a : SweepArgs) (w : W) : Storage * W * list Event * option Abort :=
  match sweepAndSwap depth s sender a w with
  | Returned s' w' evs _ => (s', w', evs, None)
  | Reverted e _ => (s, w, [], Some e)
  end.

End Engine.

Arguments Returned {W} s w evs tr.
Arguments Reverted {W} e tr.
Arguments Done {W A} a r.
Arguments Fail {W A} e tr.

(** ** A concrete chain: the mocks of [contracts/mocks]

    Used to run the engine on explicit inputs.  The world is one flat
    store; a slot is named by a list of numbers. *)
Module Mock.

Definition World : Type := list (list Z * Z).

Fixpoint key_eqb (k1 k2 : list Z) : bool :=
  match k1, k2 with
  | [], [] => true
  | x :: k1', y :: k2' => (x =? y) && key_eqb k1' k2'
  | _, _ => false
  end.

Fixpoint get (w : World) (k : list Z) : Z :=
  match w with
  | [] => 0
  | (k', v) :: w' => if key_eqb k k' then v else get w' k
  end.

Fixpoint put (w : World) (k : list Z) (v : Z) : World :=
  match w with
  | [] => [(k, v)]
  | (k', v') :: w' => if key_eqb k k' then (k, v) :: w' else (k', v') :: put w' k v
  end.

(** Slots. *)
Definition balance_slot (token holder : address) : list Z := [0; token; holder].
Definition allowance_slot (token holder spender : address) : list Z :=
  [1; token; holder; spender].
Definition ether_slot (holder : address) : list Z := [2; holder].
Definition price_slot (token : address) : list Z := [3; token].
Definition decimals_slot (token : address) : list Z := [4; token].
Definition lastAmountIn_slot : list Z := [5].
Definition callback_failed_slot : list Z := [6].

(** Who lives where. *)
Definition user : address := 1.
Definition engine : address := 2.
Definition registry : address := 3.
Definition venue : address := 4.
Definition oracle : address := 5.
Definition is_token (a : address) : bool := 10 <=? a.

(** [MockERC20] *)
Definition erc20_mint (w : World) (token to : address) (amount : Z) : option World :=
  let b := get w (balance_slot token to) + amount in
  if b <=? uint_max 256 then Some (put w (balance_slot token to) b) else None.

Definition erc20_move (w : World) (token from to : address) (amount : Z)
    : option World :=
  if get w (balance_slot token from) >=? amount then
    let w1 := put w (balance_slot token from) (get w (balance_slot token from) - amount) in
    erc20_mint w1 token to amount
  else None.

Definition erc20_transferFrom (w : World) (token caller from to : address)
    (amount : Z) : option World :=
  if from =? caller then erc20_move w token from to amount
  else
    let allowed := get w (allowance_slot token from caller) in
    if allowed >=? amount then
      erc20_move (put w (allowance_slot token from caller) (allowed - amount))
                 token from to amount
    else None.

(** A token is a [MockERC20] unless it is listed as guarded: a guarded
    token refuses to overwrite a non-zero allowance with a non-zero one. *)
Definition erc20_approve (guarded : list address) (w : World)
    (token caller spender : address) (amount : Z) : option World :=
  if existsb (Z.eqb token) guarded &&
     negb (get w (allowance_slot token caller spender) =? 0) && negb (amount =? 0)
  then None
  else Some (put w (allowance_slot token caller spender) amount).

Definition byte_of_Z (z : Z) : byte :=
  match Byte.of_N (Z.to_N z) with Some b => b | None => x00 end.
Definition Z_of_byte (b : byte) : Z := Z.of_N (Byte.to_N b).

(** Payload of the aggregator mocks, [swap(fromToken, toToken, amountIn)],
    one byte per argument. *)
Definition swap_payload (fromToken toToken : address) (amountIn : Z) : bytes :=
  map byte_of_Z [fromToken; toToken; amountIn].

Inductive VenueKind : Type :=
| Aggregator (shouldRevert : bool)   (* MockAggregator *)
| AggregatorReentrant                (* MockAggregatorReentrant *)
| AggregatorForgiving.               (* calls back too, but carries on when that fails *)

Record Scenario : Type := mkScenario {
  venue_kind : VenueKind;
  relay_accepts : bool;
  guarded : list address
}.

(** The arguments [MockAggregatorReentrant] calls back with. *)
Definition reentrant_args : SweepArgs := mkArgs 0 [] [] [] [] 8 0 [] false.

Definition failed (w : World) : bool * bytes * World := (false, [], w).

Definition answer (o : option World) (ret : bytes) (w : World)
    : bool * bytes * World :=
  match o with Some w' => (true, ret, w') | None => failed w end.

(** [MockAggregator.swap] *)
Definition aggregator_swap (shouldRevert : bool) (caller : address)
    (payload : bytes) (w : World) : bool * bytes * World :=
  match payload with
  | [f; t; n] =>
      let fromToken := Z_of_byte f in
      let toToken := Z_of_byte t in
      let amountIn := Z_of_byte n in
      if shouldRevert || negb (is_token fromToken) then failed w
      else
        match erc20_transferFrom w fromToken venue caller venue amountIn with
        | Some w1 =>
            let w2 := put w1 lastAmountIn_slot amountIn in
            if negb (toToken =? 0) then
              if is_token toToken
              then answer (erc20_mint w2 toToken caller amountIn) (abi_word amountIn) w
              else failed w
            else (true, abi_word 0, w2)
        | None => failed w
        end
  | _ => failed w
  end.

Definition mock_call (sc : Scenario) (reenter : Reentry World)
    (caller callee : address) (data : calldata) (value : Z) (w : World)
    : bool * bytes * World :=
  if callee =? registry then
    match data with
    | Raw _ => (relay_accepts sc, [], w)
    | EncPermit2TransferFrom from to token amount =>
        if is_token token
        then answer (erc20_transferFrom w token registry from to amount) (abi_word 1) w
        else failed w
    | _ => failed w
    end
  else if callee =? venue then
    match data with
    | Raw payload =>
        match venue_kind sc with
        | Aggregator shouldRevert => aggregator_swap shouldRevert caller payload w
        | AggregatorReentrant =>
            match reenter venue reentrant_args w with
            | Returned _ w' _ _ => (true, abi_word 0, w')
            | Reverted _ _ => failed w
            end
        | AggregatorForgiving =>
            aggregator_swap false caller payload
              match reenter venue reentrant_args w with
              | Returned _ w' _ _ => w'
              | Reverted _ _ => put w callback_failed_slot 1
              end
        end
    | _ => failed w
    end
  else if is_token callee then
    match data with
    | EncTransfer to amount =>
        answer (erc20_move w callee caller to amount) (abi_word 1) w
    | EncApprove spender amount =>
        answer (erc20_approve (guarded sc) w callee caller spender amount) (abi_word 1) w
    | _ => failed w
    end
  else
    (* an account without code: the value moves, nothing runs *)
    if get w (ether_slot caller) >=? value then
      (true, [],
       put (put w (ether_slot caller) (get w (ether_slot caller) - value))
           (ether_slot callee) (get w (ether_slot callee) + value))
    else failed w.

Definition env (sc : Scenario) : Env World :=
  mkEnv
    (fun w o token =>
       if o =? oracle
       then Some (get w (price_slot token), get w (decimals_slot token))
       else None)
    (fun w token holder =>
       if is_token token then Some (get w (balance_slot token holder)) else None)
    (fun w a => get w (ether_slot a))
    (mock_call sc).

(** The engine as the tests deploy it, wired to the mocks. *)
Definition no_string_decoder (_ : bytes) : option string := None.

Definition deployed (withOracle : bool) : Storage :=
  mkStorage 1 0 venue (if withOracle then oracle else 0).

Definition run (sc : Scenario) (s : Storage) (a : SweepArgs) (w : World)
    : Outcome World :=
  sweepAndSwap (env sc) engine no_string_decoder 1024 s user a w.

Definition tokenA : address := 10.
Definition tokenB : address := 11.
Definition tokenC : address := 12.

End Mock.

(** ** Vocabulary of the statements *)

Definition site_of (i : Interaction) : Site :=
  match i with
  | Query st _ _ _ => st
  | Call st _ _ _ _ _ => st
  end.

Definition outcome_trace {W} (o : Outcome W) : list Interaction :=
  match o with
  | Returned _ _ _ tr => tr
  | Reverted _ tr => tr
  end.

Definition succeeded {W} (o : Outcome W) : bool :=
  match o with
  | Returned _ _ _ _ => true
  | Reverted _ _ => false
  end.

Definition is_failure (ev : Event) : bool :=
  match ev with
  | SweepFailed _ _ _ => true
  | Swept _ _ _ _ _ => false
  end.

(** The same request in the other failure-isolation mode. *)
Definition with_mode (a : SweepArgs) (bestEffort : bool) : SweepArgs :=
  mkArgs (permit2 a) (permitCalldata a) (tokens a) (minPricesUSD a) (maxPricesUSD a)
         (priceDecimals a) (targetToken a) (swapCallData a) bestEffort.

(** The normalized price in the words of the specification, over the
    unbounded integers. *)
Definition normalized_spec (price oracleDecimals requestedDecimals : Z) : Z :=
  if oracleDecimals >? requestedDecimals
  then price / 10 ^ (oracleDecimals - requestedDecimals)
  else if oracleDecimals <? requestedDecimals
  then price * 10 ^ (requestedDecimals - oracleDecimals)
  else price.

(** The scaling factor and the scaled price both fit a [uint256]. *)
Definition representable (price oracleDecimals requestedDecimals : Z) : Prop :=
  10 ^ Z.abs (oracleDecimals - requestedDecimals) <= uint_max 256 /\
  normalized_spec price oracleDecimals requestedDecimals <= uint_max 256.

(** The transfer wrapper's success criterion in the words of the
    specification. *)
Definition wrapper_ok (success : bool) (data : bytes) : Prop :=
  success = true /\ (data = [] \/ abi_decode_bool data = Some true).

(** A trace entry issued by [_safeTransfer] / [_safeApprove] that the
    wrapper did not accept. *)
Definition failed_transfer (i : Interaction) : Prop :=
  match i with
  | Call _ _ (EncTransfer _ _) _ ok ret => ~ wrapper_ok ok ret
  | _ => False
  end.

Definition failed_approval (i : Interaction) : Prop :=
  match i with
  | Call _ _ (EncApprove _ _) _ ok ret => ~ wrapper_ok ok ret
  | _ => False
  end.

(** A trace entry that either is no wrapper call or is one the wrapper let
    pass. *)
Definition accepted (i : Interaction) : Prop :=
  match i with
  | Call _ _ (EncTransfer _ _) _ ok ret => wrapper_verdict ok ret = Some true
  | Call _ _ (EncApprove _ _) _ ok ret => wrapper_verdict ok ret = Some true
  | _ => True
  end.




(** What an iteration with the native target leaves once the aggregator
    call has succeeded: no refund in its slice, and either [Swept] or the
    report of a failed native send. *)
Definition native_outcome (sender token : address) (l : list Interaction)
    (ev : Event) : Prop :=
  Forall (fun i => site_of i <> AtRefund) l /\
  (is_failure ev = false \/ ev = SweepFailed sender token "ETH_TRANSFER_FAILED").


(** ** Concrete batches on the mock chain *)
Module Scenario.
Import Mock.

Definition plain : Scenario := mkScenario (Aggregator false) true [].

Definition funded (token : address) (amount : Z) : World :=
  [ (balance_slot token user, amount);
    (allowance_slot token user registry, amount) ].

Definition open_bounds (n : nat) : list Z * list Z :=
  (repeat 0 n, repeat (uint_max 256) n).

(** The happy path of [test/sweeper.test.js]: the user holds more than the
    payload asks the aggregator to swap. *)
Definition happy_world : World := funded tokenA 100 ++ funded tokenC 50.
Definition happy_batch (bestEffort : bool) : SweepArgs :=
  mkArgs registry [] [tokenA; tokenC] [0; 0] [uint_max 256; uint_max 256] 8 tokenB
         [swap_payload tokenA tokenB 10; swap_payload tokenC tokenB 50] bestEffort.

(** The same batch with a permit payload to relay first. *)
Definition permit_payload : bytes := [x01].
Definition permit_batch : SweepArgs :=
  mkArgs registry permit_payload [tokenA; tokenC] [0; 0] [uint_max 256; uint_max 256]
         8 tokenB [swap_payload tokenA tokenB 10; swap_payload tokenC tokenB 50] true.

(** [MockPermit2] has no entry point for a forwarded payload (only
    [transferFrom]); a registry like it rejects every relay. *)
Definition strict_registry : Scenario := mkScenario (Aggregator false) false [].


(** One asset, swapped for the target. *)
Definition single_batch (target : address) (bestEffort : bool) : SweepArgs :=
  mkArgs registry [] [tokenA] [0] [uint_max 256] 8 target
         [swap_payload tokenA target 10] bestEffort.

(** One asset whose payload makes the aggregator pay out in [tokenC] while
    the batch asks for [tokenB]: the aggregator keeps what it took, the
    engine sees no [tokenB] arrive and can no longer refund in full. *)
Definition wrong_target_batch : SweepArgs :=
  mkArgs registry [] [tokenA] [0] [uint_max 256] 8 tokenB
         [swap_payload tokenA tokenC 10] true.

(** [tokenA] refuses to overwrite the allowance an earlier sweep left. *)
Definition guarded_tokenA : Scenario := mkScenario (Aggregator false) true [tokenA].
Definition stale_allowance_world : World :=
  funded tokenA 100 ++ [ (allowance_slot tokenA engine venue, 90) ].

(** The oracle quotes [tokenA]. *)
Definition quoted (price decimals : Z) : World :=
  [ (price_slot tokenA, price); (decimals_slot tokenA, decimals) ] ++ funded tokenA 100.

Definition priced_batch (lo hi requestedDecimals : Z) (bestEffort : bool) : SweepArgs :=
  mkArgs registry [] [tokenA] [lo] [hi] requestedDecimals tokenB
         [swap_payload tokenA tokenB 10] bestEffort.

Definition start (w : World) : Run World := mkRun w [] [].

(** The aggregators that call back into the engine. *)
Definition reentrant : Scenario := mkScenario AggregatorReentrant true [].

(** One asset whose payload asks the aggregator to swap nothing: the
    aggregator call succeeds and no output arrives. *)
Definition idle_batch (target : address) (bestEffort : bool) : SweepArgs :=
  mkArgs registry [] [tokenA] [0] [uint_max 256] 8 target
         [swap_payload tokenA target 0] bestEffort.

(** The scenario of the specification: [tokenA] is convertible, [tokenC]
    comes without a conversion payload. *)
Definition mixed_batch (bestEffort : bool) : SweepArgs :=
  mkArgs registry [] [tokenA; tokenC] [0; 0] [uint_max 256; uint_max 256] 8 tokenB
         [swap_payload tokenA tokenB 100; []] bestEffort.

(** Two tokens, one max price. *)
Definition ragged_batch : SweepArgs :=
  mkArgs registry permit_payload [tokenA; tokenC] [0; 0] [uint_max 256] 8 tokenB
         [swap_payload tokenA tokenB 10; swap_payload tokenC tokenB 50] true.

End Scenario.

(** ** Reading an invocation as its three stages *)

(** How the modifier turns the result of the body into an outcome. *)
Definition conclude {W} (s : Storage) (res : Result W unit) : Outcome W :=
  match res with
  | Done _ r => Returned (with_status (with_status s 2) 1) (world r) (emitted r) (trace r)
  | Fail e tr => Reverted e tr
  end.



(** ** The rest of [Sweeper]: construction and configuration *)

(** The constructors of [ReentrancyGuard] ([_status = 1]) and of
    [Sweeper]; [deployer] is the [msg.sender] of the deployment. *)
Definition constructor (deployer _aggregator _priceOracle : address) : Storage :=
  mkStorage 1 deployer _aggregator _priceOracle.





Section Lifecycle.

Context {W : Type} (E : Env W) (this : address) (dec : bytes -> option string).



End Lifecycle.



(** ** The error taxonomy *)





(** ** Events *)

Definition event_subject (ev : Event) : address * address :=
  match ev with
  | Swept user token _ _ _ => (user, token)
  | SweepFailed user token _ => (user, token)
  end.

Definition event_target_ok (a : SweepArgs) (ev : Event) : Prop :=
  match ev with
  | Swept _ _ _ target _ => target = targetToken a
  | SweepFailed _ _ _ => True
  end.

(** ** The engine's interface discipline *)

(** What each kind of interaction may be addressed to. *)
Definition disciplined (this sender : address) (s : Storage) (a : SweepArgs)
    (i : Interaction) : Prop :=
  match i with
  | Call AtForwardPermit c (Raw d) v _ _ =>
      c = permit2 a /\ d = permitCalldata a /\ v = 0
  | Query AtOracle c tok _ => c = priceOracle s /\ In tok (tokens a)
  | Query AtUserBalance tok h _ => In tok (tokens a) /\ h = sender
  | Call AtPull c (EncPermit2TransferFrom f t tok _) v _ _ =>
      c = permit2 a /\ f = sender /\ t = this /\ In tok (tokens a) /\ v = 0
  | Call AtApprove tok (EncApprove sp _) v _ _ =>
      In tok (tokens a) /\ sp = aggregator s /\ v = 0
  | Query AtBalBefore tgt h _ => tgt = targetToken a /\ h = this
  | Query AtBalAfter tgt h _ => tgt = targetToken a /\ h = this
  | Call AtAggregator c (Raw d) v _ _ =>
      c = aggregator s /\ In d (swapCallData a) /\ d <> [] /\ v = 0
  | Call AtEthSend c (Raw []) _ _ _ => c = sender /\ targetToken a = 0
  | Call AtSettle tgt (EncTransfer to _) v _ _ =>
      tgt = targetToken a /\ to = sender /\ v = 0
  | Call AtRefund tok (EncTransfer to _) v _ _ =>
      In tok (tokens a) /\ to = sender /\ v = 0
  | _ => False
  end.



(** ** The order of the interactions *)

(** What the previous interaction was. *)
Definition approved (prev : option Interaction) : Prop :=
  exists tok sp amt ok res,
    prev = Some (Call AtApprove tok (EncApprove sp amt) 0 ok res) /\
    wrapper_ok ok res.

Definition venue_returned (ok : bool) (prev : option Interaction) : Prop :=
  exists c d res, prev = Some (Call AtAggregator c d 0 ok res).

Definition balance_read (site : Site) (prev : option Interaction) : Prop :=
  exists c h v, prev = Some (Query site c h (Some [v])).

(** Interactions after which the iteration of an asset may be over. *)
Definition iteration_over (a : SweepArgs) (p : Interaction) : Prop :=
  match p with
  | Query AtOracle _ _ (Some _) => True
  | Query AtUserBalance _ _ (Some [v]) => v = 0
  | Call AtPull _ _ _ false _ => True
  | Call AtRefund _ _ _ ok ret => wrapper_ok ok ret
  | Call AtSettle _ _ _ ok ret => wrapper_ok ok ret
  | Call AtEthSend _ _ _ _ _ => True
  | Call AtAggregator _ _ _ true _ => targetToken a = 0
  | _ => False
  end.

Definition may_start (a : SweepArgs) (prev : option Interaction) : Prop :=
  match prev with
  | None => True
  | Some (Call AtForwardPermit _ _ _ true _) => True
  | Some p => iteration_over a p
  end.

(** [follows a prev cur]: [cur] may come right after [prev] ([None]: at
    the very beginning). *)
Definition follows (a : SweepArgs) (prev : option Interaction) (cur : Interaction)
    : Prop :=
  match cur with
  | Call AtForwardPermit _ _ _ _ _ => prev = None
  | Query AtOracle _ _ _ => may_start a prev
  | Query AtUserBalance tok _ _ =>
      may_start a prev \/ exists c ans, prev = Some (Query AtOracle c tok (Some ans))
  | Call AtPull _ (EncPermit2TransferFrom f _ tok amt) _ _ _ =>
      amt <> 0 /\ prev = Some (Query AtUserBalance tok f (Some [amt]))
  | Call AtApprove tok (EncApprove _ amt) _ _ _ =>
      exists c f t res,
        prev = Some (Call AtPull c (EncPermit2TransferFrom f t tok amt) 0 true res)
  | Query AtBalBefore _ _ _ => approved prev
  | Call AtAggregator _ _ _ _ _ => approved prev \/ balance_read AtBalBefore prev
  | Call AtEthSend _ _ v _ _ => 0 < v /\ venue_returned true prev
  | Query AtBalAfter _ _ _ => venue_returned true prev
  | Call AtSettle _ (EncTransfer _ amt) _ _ _ =>
      0 < amt /\ balance_read AtBalAfter prev
  | Call AtRefund tok (EncTransfer to amt) _ _ _ =>
      (exists c t res,
         prev = Some (Call AtPull c (EncPermit2TransferFrom to t tok amt) 0 true res)) \/
      venue_returned false prev \/ balance_read AtBalAfter prev
  | _ => False
  end.

Fixpoint ordered (a : SweepArgs) (prev : option Interaction) (l : list Interaction)
    : Prop :=
  match l with
  | [] => True
  | x :: l' => follows a prev x /\ ordered a (Some x) l'
  end.

Fixpoint last_of (prev : option Interaction) (l : list Interaction)
    : option Interaction :=
  match l with
  | [] => prev
  | x :: l' => last_of (Some x) l'
  end.

(** ** Assets without call data, and what the events report *)


(** The reasons a [SweepFailed] event can carry. *)
Definition failure_reports : list string :=
  ["PRICE_OUT_OF_RANGE_OR_UNKNOWN"; "ZERO_BALANCE"; "PERMIT2_TRANSFER_FAILED";
   "NO_SWAP_CALLDATA"; "AGGREGATOR_CALL_FAILED"; "ETH_TRANSFER_FAILED";
   "NO_TARGET_RECEIVED"].

Definition event_sound (a : SweepArgs) (ev : Event) : Prop :=
  match ev with
  | Swept _ _ amountIn _ amountOut =>
      amountIn <> 0 /\ 0 <= amountOut /\ (targetToken a <> 0 -> 0 < amountOut)
  | SweepFailed _ _ reason => In reason failure_reports
  end.

(** ** The price oracle of the mocks *)
Module MockPriceOracle.
Import Mock.

(** [MockPriceOracle.setPrice] *)
Definition setPrice (w : World) (token : address) (_price _decimals : Z) : World :=
  put (put w (price_slot token) _price) (decimals_slot token) _decimals.

End MockPriceOracle.

(** ** Open price bounds *)



(** ** The page that submits a batch

    [frontend/src/pages/Sweeper]: how [handleSweep] fills [swapCalls] and
    how [onSubmit] collects from it the arrays it passes to
    [sweepAndSwap].  JavaScript values are modelled as far as these lines
    go: reading a property of [undefined] or [null] throws a [TypeError],
    reading an absent property gives [undefined]. *)
Module Page.

#[warnings="-register-all"]
Inductive JsValue : Type :=
| JsUndefined
| JsNull
| JsBool (b : bool)
| JsNumber (n : Z)
| JsString (s : string)
| JsObject (fields : list (string * JsValue)).

Inductive Thrown : Type := TypeError.

Definition Js (A : Type) : Type := A + Thrown.

Definition bindJs {A B} (m : Js A) (k : A -> Js B) : Js B :=
  match m with
  | inl a => k a
  | inr e => inr e
  end.

(** [Array.prototype.map] with a callback that may throw. *)
Fixpoint mapJs {A B} (f : A -> Js B) (l : list A) : Js (list B) :=
  match l with
  | [] => inl []
  | x :: l' => bindJs (f x) (fun y => bindJs (mapJs f l') (fun ys => inl (y :: ys)))
  end.

Fixpoint field (fields : list (string * JsValue)) (name : string) : JsValue :=
  match fields with
  | [] => JsUndefined
  | (k, v) :: rest => if String.eqb k name then v else field rest name
  end.

(** [v.name]; none of the names read below is a property of a primitive. *)
Definition member (v : JsValue) (name : string) : Js JsValue :=
  match v with
  | JsUndefined | JsNull => inr TypeError
  | JsObject fields => inl (field fields name)
  | _ => inl JsUndefined
  end.

(** [v?.name] *)
Definition optional (v : JsValue) (name : string) : Js JsValue :=
  match v with
  | JsUndefined | JsNull => inl JsUndefined
  | _ => member v name
  end.

Definition truthy (v : JsValue) : bool :=
  match v with
  | JsUndefined | JsNull => false
  | JsBool b => b
  | JsNumber n => negb (n =? 0)
  | JsString s => negb (String.eqb s "")
  | JsObject _ => true
  end.

(** [v === 'literal'] *)
Definition is_string (v : JsValue) (literal : string) : bool :=
  match v with
  | JsString s => String.eqb s literal
  | _ => false
  end.

(** [v === n] *)
Definition is_number (v : JsValue) (n : Z) : bool :=
  match v with
  | JsNumber m => m =? n
  | _ => false
  end.

(** The object [buildSwapTx] returns (lib/aggregator). *)
Definition swapTx (to data value expectedAmountOut estimatedGas approveNeeded
    approveData raw : JsValue) : JsValue :=
  JsObject [ ("to", to); ("data", data); ("value", value);
             ("expectedAmountOut", expectedAmountOut);
             ("estimatedGas", estimatedGas); ("approveNeeded", approveNeeded);
             ("approveData", approveData); ("raw", raw) ].

(** What [handleSweep] pushes: [{ token: addr, swap }] when the swap was
    built, [{ token: addr, error: String(err) }] when building threw. *)
Definition built (addr swap : JsValue) : JsValue :=
  JsObject [ ("token", addr); ("swap", swap) ].

Definition unbuilt (addr err : JsValue) : JsValue :=
  JsObject [ ("token", addr); ("error", err) ].

Inductive pushed : JsValue -> Prop :=
| pushed_built addr to data value expectedAmountOut estimatedGas approveNeeded
    approveData raw :
    pushed (built addr (swapTx to data value expectedAmountOut estimatedGas
                               approveNeeded approveData raw))
| pushed_unbuilt addr err : pushed (unbuilt addr (JsString err)).

(** [s.swap ? s.swap.swap.data || s.swap.data || s.swap.raw?.tx?.data : '0x'] *)
Definition swapCallData_of (s : JsValue) : Js JsValue :=
  bindJs (member s "swap") (fun swap =>
  if truthy swap then
    bindJs (member swap "swap") (fun inner =>
    bindJs (member inner "data") (fun d1 =>
    if truthy d1 then inl d1
    else
      bindJs (member swap "data") (fun d2 =>
      if truthy d2 then inl d2
      else
        bindJs (member swap "raw") (fun raw =>
        bindJs (optional raw "tx") (fun tx =>
        optional tx "data")))))
  else inl (JsString "0x")).

Record Arrays : Type := mkArrays {
  tokensArr : list JsValue;
  minPrices : list JsValue;
  maxPrices : list JsValue;
  priceDecimals : JsValue;
  targetAddr : JsValue;
  swapCallData : list JsValue
}.

(** [onSubmit], from "collect arrays" to the call data; [ethers] is the
    imported library object. *)
Definition collect (ethers targetToken chainId : JsValue) (swapCalls : list JsValue)
    : Js Arrays :=
  bindJs (mapJs (fun s => member s "token") swapCalls) (fun tokensArr =>
  let minPrices := map (fun _ => JsNumber 0) tokensArr in
  bindJs (mapJs (fun _ => bindJs (member ethers "constants")
                                 (fun c => member c "MaxUint256")) tokensArr)
         (fun maxPrices =>
  let priceDecimals := JsNumber 8 in
  bindJs (if is_string targetToken "USDC"
          then inl (if is_number chainId 1
                    then JsString "0xA0b8..." else JsString "0x2791...")
          else bindJs (member ethers "constants")
                      (fun c => member c "AddressZero")) (fun targetAddr =>
  bindJs (mapJs swapCallData_of swapCalls) (fun swapCallData =>
  inl (mkArrays tokensArr minPrices maxPrices priceDecimals targetAddr
                swapCallData))))).

End Page.

(** ** More concrete inputs *)
Module Sample.
Import Mock.



(** The library object of ethers 5, as far as the page reads it. *)
Definition ethers5 : Page.JsValue :=
  Page.JsObject
    [ ("constants",
       Page.JsObject
         [ ("MaxUint256", Page.JsNumber (uint_max 256));
           ("AddressZero",
            Page.JsString "0x0000000000000000000000000000000000000000") ]) ].

(** One asset whose swap was built, one whose swap was not. *)
Definition built_call : Page.JsValue :=
  Page.built (Page.JsString "0xA")
    (Page.swapTx (Page.JsString "0xRouter") (Page.JsString "0x12aa3caf")
                 (Page.JsString "0") Page.JsNull Page.JsNull (Page.JsBool true)
                 (Page.JsString "0x095ea7b3") (Page.JsObject [])).

Definition unbuilt_call : Page.JsValue :=
  Page.unbuilt (Page.JsString "0xC")
               (Page.JsString "Error: Aggregator swap build failed: timeout").

End Sample.

(** * Properties *)

Ltac unfold_engine :=
  unfold sweepToken, priceCheck, revert_or_continue, _safeTransfer, _safeApprove,
    _permit2Transfer, _callAggregator, wrapper_require, oracle_getPriceUSD,
    erc20_balanceOf, self_balance, low_call, index, lift_option, require, emit, log,
    revert, bind, ret in *.

(** One step of symbolic execution: split on an innermost scrutinee; a
    negated flag is split on the flag itself. *)
Ltac exec_step :=
  match goal with
  | |- context [negb ?b] =>
      lazymatch b with
      | context [match _ with _ => _ end] => fail
      | _ => destruct b eqn:?
      end
  | |- context [match ?x with _ => _ end] =>
      lazymatch x with
      | context [match _ with _ => _ end] => fail
      | _ => destruct x eqn:?
      end
  end.

Ltac exec :=
  unfold_engine;
  repeat (cbn [world emitted trace fst snd negb] in *; exec_step);
  cbn [world emitted trace fst snd negb] in *.

(** Unfolding by name, fixed here before the sections abbreviate the
    engine's functions to their instances. *)
Ltac unfold_transact := unfold transact.
Ltac unfold_priceCheck := unfold priceCheck.
Ltac unfold_sweepToken := unfold sweepToken.
Ltac step_loop := cbn [sweepLoop].

Ltac flatten_trace := repeat rewrite <- app_assoc in *; cbn [app] in *.

Section Proofs.

Variable W : Type.
Variable E : Env W.
Variable this : address.
Variable dec : bytes -> option string.

Abbreviation sweepAndSwap := (sweepAndSwap E this dec).
Abbreviation transact := (transact E this dec).
Abbreviation reentry := (reentry E this dec).
Abbreviation sweepToken := (sweepToken E this).
Abbreviation sweepLoop := (sweepLoop E this).

(** ** Structure of an invocation *)

Lemma sweepAndSwap_unfold depth :
  sweepAndSwap depth = sweepAndSwap_with E this dec (reentry depth).
Proof. destruct depth; reflexivity. Qed.


(** An admitted invocation is the optional relay followed by the loop. *)
Lemma sweepAndSwap_admitted depth s sender a w :
  _status s = 1 ->
  lengths_agree a = true ->
  sweepAndSwap depth s sender a w =
  conclude s
    (bind (if Nat.ltb 0 (List.length (permitCalldata a))
           then _forwardPermit E this dec (reentry depth (with_status s 2))
                  (permit2 a) (permitCalldata a)
           else ret tt)
          (fun _ => sweepLoop (reentry depth (with_status s 2)) (with_status s 2)
                      sender a 0 (List.length (tokens a)))
          (mkRun w [] [])).
Proof.
  intros Hs Hlen. rewrite sweepAndSwap_unfold.
  unfold sweepAndSwap_with, nonReentrant, sweepAndSwap_body, lengths_agree in *.
  rewrite Hs. cbn [Z.eqb Pos.eqb].
  apply andb_prop in Hlen as [-> ->].
  reflexivity.
Qed.

(** A loop invariant: [P i] holds before iteration [i]; [Q] is what an
    abort is allowed to leave. *)
Lemma sweepLoop_inv (P : nat -> Run W -> Prop) (Q : Abort -> list Interaction -> Prop)
    reenter s sender a :
  (forall i r, P i r ->
     match sweepToken reenter s sender a i r with
     | Done _ r' => P (S i) r'
     | Fail e tr => Q e tr
     end) ->
  forall n i r, P i r ->
    match sweepLoop reenter s sender a i n r with
    | Done _ r' => P (i + n)%nat r'
    | Fail e tr => Q e tr
    end.
Proof.
  intros Hstep n. induction n as [|n IH]; intros i r HP; step_loop.
  - unfold ret. now rewrite Nat.add_0_r.
  - unfold bind. specialize (Hstep i r HP).
    destruct (sweepToken reenter s sender a i r) as [[] r1|e tr]; [|exact Hstep].
    specialize (IH (S i) r1 Hstep).
    now rewrite Nat.add_succ_r.
Qed.

(** ** C6: mismatched array lengths *)

Lemma mismatch_reverts depth s sender a w :
  lengths_agree a = false ->
  exists e,
    sweepAndSwap depth s sender a w = Reverted e [] /\
    In e [Error "REENTRANCY"; Error "ARRAY_LENGTH_MISMATCH";
          Error "PRICE_ARRAY_MISMATCH"].
Proof.
  intros Hlen. rewrite sweepAndSwap_unfold.
  unfold sweepAndSwap_with, nonReentrant, sweepAndSwap_body, lengths_agree in *.
  destruct (_status s =? 1).
  2:{ eexists; split; simpl; auto. }
  unfold bind, require at 1.
  destruct (Nat.eqb (List.length (tokens a)) (List.length (swapCallData a)));
    simpl in *.
  - rewrite Hlen. simpl. eexists; split; simpl; auto.
  - eexists; split; simpl; auto.
Qed.

(** C6.  When the token, min-price, max-price and swap-payload arrays do
    not all have the same length, [sweepAndSwap] aborts in either mode
    before any external interaction (the trace is empty: no permit relay,
    no per-asset work), and the transaction leaves storage and world as they
    were and emits nothing. *)
Theorem array_length_mismatch_aborts depth s sender a w :
  lengths_agree a = false ->
  exists e,
    sweepAndSwap depth s sender a w = Reverted e [] /\
    In e [Error "REENTRANCY"; Error "ARRAY_LENGTH_MISMATCH";
          Error "PRICE_ARRAY_MISMATCH"] /\
    transact depth s sender a w = (s, w, [], Some e).
Proof.
  intros Hlen.
  destruct (mismatch_reverts depth s sender a w Hlen) as (e & He & Hin).
  exists e. split; [exact He|]. split; [exact Hin|].
  unfold_transact. now rewrite He.
Qed.

(** ** C7: the permit is forwarded once, first *)



End Proofs.

Lemma array_length_mismatch_aborts_witness :
  lengths_agree Scenario.ragged_batch = false /\
  exists e,
    Mock.run Scenario.plain (Mock.deployed false) Scenario.ragged_batch
             Scenario.happy_world = Reverted e [] /\
    transact (Mock.env Scenario.plain) Mock.engine Mock.no_string_decoder 1024
             (Mock.deployed false) Mock.user Scenario.ragged_batch Scenario.happy_world =
    (Mock.deployed false, Scenario.happy_world, [], Some e).
Proof.
  split; [reflexivity|].
  destruct (@array_length_mismatch_aborts Mock.World (Mock.env Scenario.plain)
              Mock.engine Mock.no_string_decoder 1024 (Mock.deployed false) Mock.user
              Scenario.ragged_batch Scenario.happy_world eq_refl) as (e & He & _ & Htx).
  exists e. split; [exact He | exact Htx].
Defined.

Section Relay.

Context {W : Type} (E : Env W) (this : address) (dec : bytes -> option string).

Abbreviation sweepAndSwap := (sweepAndSwap E this dec).
Abbreviation reentry := (reentry E this dec).
Abbreviation sweepLoop := (sweepLoop E this).


(** ** C10: a batch that lists nothing *)


End Relay.




(** ** C8, C9: the safe wrappers *)

Section Wrappers.

Context {W : Type} (E : Env W) (this : address) (dec : bytes -> option string).

Abbreviation sweepAndSwap := (sweepAndSwap E this dec).
Abbreviation reentry := (reentry E this dec).
Abbreviation sweepToken := (sweepToken E this).
Abbreviation sweepLoop := (sweepLoop E this).

Lemma wrapper_verdict_spec ok data :
  wrapper_verdict ok data = Some true <-> wrapper_ok ok data.
Proof.
  unfold wrapper_verdict, wrapper_ok. destruct ok.
  - destruct data as [|b bs].
    + split; auto.
    + split.
      * intros H. split; [reflexivity | right; exact H].
      * intros [_ [H | H]]; [discriminate | exact H].
  - split; [discriminate | intros [H _]; discriminate].
Qed.

(** The wrapper proceeds exactly when its verdict is [Some true]. *)
Lemma safeTransfer_proceeds reenter site token to value r :
  (exists r', _safeTransfer E this reenter site token to value r = Done tt r') <->
  (let '(ok, res, _) := call E reenter this token (EncTransfer to value) 0 (world r) in
   wrapper_verdict ok res = Some true).
Proof.
  unfold _safeTransfer, wrapper_require, require, low_call, bind, ret, revert.
  destruct (call E reenter this token (EncTransfer to value) 0 (world r))
    as [[ok res] w'].
  destruct (wrapper_verdict ok res) as [[|]|]; split;
    try solve [ intros [r' H]; discriminate H | discriminate | reflexivity ].
  intros _. eexists; reflexivity.
Qed.

Lemma safeApprove_proceeds reenter token spender value r :
  (exists r', _safeApprove E this reenter token spender value r = Done tt r') <->
  (let '(ok, res, _) := call E reenter this token (EncApprove spender value) 0 (world r) in
   wrapper_verdict ok res = Some true).
Proof.
  unfold _safeApprove, wrapper_require, require, low_call, bind, ret, revert.
  destruct (call E reenter this token (EncApprove spender value) 0 (world r))
    as [[ok res] w'].
  destruct (wrapper_verdict ok res) as [[|]|]; split;
    try solve [ intros [r' H]; discriminate H | discriminate | reflexivity ].
  intros _. eexists; reflexivity.
Qed.

(** An iteration that runs to its end has only accepted wrapper calls
    behind it. *)
Lemma sweepToken_accepted reenter s sender a i r :
  Forall accepted (trace r) ->
  match sweepToken reenter s sender a i r with
  | Done _ r' => Forall accepted (trace r')
  | Fail _ _ => True
  end.
Proof.
  intros H. exec; trivial;
    repeat (apply Forall_app; split); auto;
    repeat constructor; assumption.
Qed.

Lemma sweepLoop_accepted reenter s sender a n i r :
  Forall accepted (trace r) ->
  match sweepLoop reenter s sender a i n r with
  | Done _ r' => Forall accepted (trace r')
  | Fail _ _ => True
  end.
Proof.
  apply (sweepLoop_inv E this (fun _ r' => Forall accepted (trace r'))
           (fun _ _ => True)).
  intros j r1. apply sweepToken_accepted.
Qed.

Lemma sweepAndSwap_accepted depth s sender a w :
  match sweepAndSwap depth s sender a w with
  | Returned _ _ _ tr => Forall accepted tr
  | Reverted _ _ => True
  end.
Proof.
  rewrite sweepAndSwap_unfold.
  unfold sweepAndSwap_with, nonReentrant, sweepAndSwap_body.
  destruct (_status s =? 1); [|trivial].
  unfold _forwardPermit. unfold bind, require, low_call, ret, revert.
  repeat match goal with
         | |- context [if ?c then _ else _] => destruct c
         | |- context [call ?e ?re ?t ?c ?d ?v ?w] =>
             destruct (call e re t c d v w) as [[? ?] ?]
         | |- context [match _shortRevertReason ?d ?x with _ => _ end] =>
             destruct (_shortRevertReason d x)
         end; cbn [world emitted trace app]; trivial;
  match goal with
  | |- context [sweepLoop ?re ?s2 ?sd ?a ?i ?n ?r] =>
      let H := fresh in
      assert (H : Forall accepted (trace r)) by (repeat constructor);
      apply (sweepLoop_accepted re s2 sd a n i) in H;
      destruct (sweepLoop re s2 sd a i n r) as [[] ?|? ?]; cbn; trivial
  end.
Qed.

(** C8.  [_safeTransfer] lets the invocation proceed if and only if the
    token call succeeded and returned either nothing or data that decodes
    to [true]; and an invocation whose trace holds a transfer (refund or
    settlement) the wrapper rejected never returns: it aborts, in
    best-effort and in atomic mode alike. *)
Theorem failed_transfer_is_fatal depth s sender a w :
  (forall reenter site token to value r,
     (exists r', _safeTransfer E this reenter site token to value r = Done tt r') <->
     (let '(ok, res, _) := call E reenter this token (EncTransfer to value) 0 (world r) in
      wrapper_ok ok res)) /\
  (forall i,
     In i (outcome_trace (sweepAndSwap depth s sender a w)) ->
     failed_transfer i ->
     succeeded (sweepAndSwap depth s sender a w) = false).
Proof.
  split.
  - intros. rewrite safeTransfer_proceeds.
    destruct (call E reenter this token (EncTransfer to value) 0 (world r))
      as [[ok res] w'].
    apply wrapper_verdict_spec.
  - intros i Hin Hbad.
    pose proof (sweepAndSwap_accepted depth s sender a w) as Hacc.
    destruct (sweepAndSwap depth s sender a w) as [s' w' evs tr|e tr];
      [|reflexivity].
    exfalso. cbn in Hin.
    rewrite Forall_forall in Hacc. specialize (Hacc i Hin).
    destruct i as [| st c [ | to v | | ] val ok ret]; try contradiction.
    cbn in Hacc, Hbad. apply Hbad. now apply wrapper_verdict_spec.
Qed.

(** C9.  [_safeApprove] lets the invocation proceed only when the
    approval call succeeded with no data or data decoding to [true]; an
    invocation whose trace holds a rejected approval never returns, in
    either mode, so the failure is never turned into a refunded, reported
    per-asset outcome. *)
Theorem failed_approval_is_fatal depth s sender a w :
  (forall reenter token spender value r,
     (exists r', _safeApprove E this reenter token spender value r = Done tt r') <->
     (let '(ok, res, _) := call E reenter this token (EncApprove spender value) 0 (world r) in
      wrapper_ok ok res)) /\
  (forall i,
     In i (outcome_trace (sweepAndSwap depth s sender a w)) ->
     failed_approval i ->
     succeeded (sweepAndSwap depth s sender a w) = false).
Proof.
  split.
  - intros. rewrite safeApprove_proceeds.
    destruct (call E reenter this token (EncApprove spender value) 0 (world r))
      as [[ok res] w'].
    apply wrapper_verdict_spec.
  - intros i Hin Hbad.
    pose proof (sweepAndSwap_accepted depth s sender a w) as Hacc.
    destruct (sweepAndSwap depth s sender a w) as [s' w' evs tr|e tr];
      [|reflexivity].
    exfalso. cbn in Hin.
    rewrite Forall_forall in Hacc. specialize (Hacc i Hin).
    destruct i as [| st c [ | | sp v | ] val ok ret]; try contradiction.
    cbn in Hacc, Hbad. apply Hbad. now apply wrapper_verdict_spec.
Qed.

End Wrappers.

Ltac find_in_trace := vm_compute; repeat (first [left; reflexivity | right]).

Lemma failed_transfer_is_fatal_witness :
  let o := Mock.run Scenario.plain (Mock.deployed false) Scenario.wrong_target_batch
             (Scenario.funded Mock.tokenA 100) in
  let i := Call AtRefund Mock.tokenA (EncTransfer Mock.user 100) 0 false [] in
  In i (outcome_trace o) /\ failed_transfer i /\ succeeded o = false.
Proof.
  intros o i.
  assert (Hin : In i (outcome_trace o)) by find_in_trace.
  assert (Hbad : failed_transfer i) by (intros [H _]; discriminate H).
  split; [exact Hin|]. split; [exact Hbad|].
  exact (proj2 (failed_transfer_is_fatal (Mock.env Scenario.plain) Mock.engine
                  Mock.no_string_decoder 1024 (Mock.deployed false) Mock.user
                  Scenario.wrong_target_batch (Scenario.funded Mock.tokenA 100))
               i Hin Hbad).
Defined.

Lemma failed_approval_is_fatal_witness :
  let o := Mock.run Scenario.guarded_tokenA (Mock.deployed false)
             (Scenario.single_batch Mock.tokenB true) Scenario.stale_allowance_world in
  let i := Call AtApprove Mock.tokenA (EncApprove Mock.venue 100) 0 false [] in
  In i (outcome_trace o) /\ failed_approval i /\ succeeded o = false.
Proof.
  intros o i.
  assert (Hin : In i (outcome_trace o)) by find_in_trace.
  assert (Hbad : failed_approval i) by (intros [H _]; discriminate H).
  split; [exact Hin|]. split; [exact Hbad|].
  exact (proj2 (failed_approval_is_fatal (Mock.env Scenario.guarded_tokenA) Mock.engine
                  Mock.no_string_decoder 1024 (Mock.deployed false) Mock.user
                  (Scenario.single_batch Mock.tokenB true)
                  Scenario.stale_allowance_world)
               i Hin Hbad).
Defined.

(** ** C5: the price gate *)

Section PriceGate.

Context {W : Type} (E : Env W) (this : address).

Abbreviation priceCheck := (priceCheck E).
Abbreviation sweepToken := (sweepToken E this).

(** The three cases of the specification's own example. *)
Lemma normalizePrice_same_precision price : normalizePrice price 8 8 = Some price.
Proof. reflexivity. Qed.

Lemma normalizePrice_finer_oracle price : normalizePrice price 10 8 = Some (price / 100).
Proof. reflexivity. Qed.

Lemma normalizePrice_coarser_oracle price :
  price * 100 <= uint_max 256 -> normalizePrice price 6 8 = Some (price * 100).
Proof.
  intros H. unfold normalizePrice. cbn [Z.gtb Z.ltb Z.compare Pos.compare Pos.compare_cont].
  change (checked_pow 10 (8 - 6)) with (Some 100). unfold checked_mul.
  apply Z.leb_le in H. now rewrite H.
Qed.

(** The code's normalisation against the specification's, over [Z]. *)
Lemma normalizePrice_spec price d pd :
  0 < price -> price <= uint_max 256 ->
  (representable price d pd -> normalizePrice price d pd = Some (normalized_spec price d pd)) /\
  (~ representable price d pd -> normalizePrice price d pd = None).
Proof.
  intros Hpos Hmax. unfold representable, normalizePrice, normalized_spec, checked_pow, checked_mul.
  destruct (d >? pd) eqn:Hgt.
  - apply Z.gtb_lt in Hgt. rewrite Z.abs_eq by lia.
    destruct (10 ^ (d - pd) <=? uint_max 256) eqn:Hp.
    + apply Z.leb_le in Hp. split; [reflexivity|].
      intros Hn. exfalso. apply Hn. split; [exact Hp|].
      assert (0 < 10 ^ (d - pd)) by (apply Z.pow_pos_nonneg; lia).
      assert (price / 10 ^ (d - pd) <= price)
        by (apply Z.div_le_upper_bound; nia).
      lia.
    + apply Z.leb_gt in Hp. split; [|reflexivity]. intros [H _]. lia.
  - rewrite Z.gtb_ltb in Hgt. apply Z.ltb_ge in Hgt.
    destruct (d <? pd) eqn:Hlt.
    + apply Z.ltb_lt in Hlt.
      replace (Z.abs (d - pd)) with (pd - d) by lia.
      assert (0 < 10 ^ (pd - d)) by (apply Z.pow_pos_nonneg; lia).
      destruct (10 ^ (pd - d) <=? uint_max 256) eqn:Hp.
      * apply Z.leb_le in Hp.
        destruct (price * 10 ^ (pd - d) <=? uint_max 256) eqn:Hm.
        -- split; [reflexivity|]. apply Z.leb_le in Hm. intros Hn. exfalso. apply Hn. auto.
        -- apply Z.leb_gt in Hm. split; [|reflexivity]. intros [_ H']. lia.
      * apply Z.leb_gt in Hp. split; [|reflexivity]. intros [H' _]. lia.
    + apply Z.ltb_ge in Hlt. assert (d = pd) by lia. subst.
      rewrite Z.sub_diag. split; [reflexivity|].
      intros Hn. exfalso. apply Hn. split; [|exact Hmax].
      unfold uint_max. cbn. lia.
Qed.

(** C5 (as amended).  Without an oracle the gate passes and asks nobody.
    With an oracle answering [(price, d)]: a zero price fails the gate;
    a non-zero price whose scaling factor [10^|d - requested|] and scaled
    value fit 256 bits is normalized as the specification says (floor
    division when the oracle is finer, multiplication when it is coarser,
    unchanged when equal) and passes exactly when
    [lo <= normalized <= hi]; when they do not fit, the checked arithmetic
    panics and the iteration aborts.  A gate that fails is reported as
    [SweepFailed(_, _, "PRICE_OUT_OF_RANGE_OR_UNKNOWN")] (and, in atomic
    mode, turned into the abort "PRICE_CHECK_FAILED"); an abort inside the
    gate aborts the iteration in either mode. *)
Theorem price_gate reenter s sender a i token lo hi r :
  nth_error (tokens a) i = Some token ->
  nth_error (minPricesUSD a) i = Some lo ->
  nth_error (maxPricesUSD a) i = Some hi ->
  (priceOracle s = 0 -> priceCheck s a i token r = Done true r) /\
  (priceOracle s <> 0 ->
   forall price d,
     getPriceUSD E (world r) (priceOracle s) token = Some (price, d) ->
     is_uint 256 price = true ->
     is_uint 8 d = true ->
     let r1 := mkRun (world r) (emitted r)
                     (trace r ++ [Query AtOracle (priceOracle s) token (Some [price; d])]) in
     let n := normalized_spec price d (priceDecimals a) in
     (price = 0 -> priceCheck s a i token r = Done false r1) /\
     (price <> 0 -> representable price d (priceDecimals a) ->
      priceCheck s a i token r = Done ((lo <=? n) && (n <=? hi)) r1) /\
     (price <> 0 -> ~ representable price d (priceDecimals a) ->
      priceCheck s a i token r = Fail (Panic 17) (trace r1))) /\
  (forall r1, priceCheck s a i token r = Done false r1 ->
     sweepToken reenter s sender a i r =
     if partialSuccess a
     then Done tt (mkRun (world r1)
                         (emitted r1 ++
                          [SweepFailed sender token "PRICE_OUT_OF_RANGE_OR_UNKNOWN"])
                         (trace r1))
     else Fail (Error "PRICE_CHECK_FAILED") (trace r1)) /\
  (forall e tr, priceCheck s a i token r = Fail e tr ->
     sweepToken reenter s sender a i r = Fail e tr).
Proof.
  intros Ht Hlo Hhi. split; [|split; [|split]].
  - intros H0. unfold_priceCheck. rewrite H0. reflexivity.
  - intros Horacle price d Hq Hprice Hd r1 n.
    apply Z.eqb_neq in Horacle.
    assert (Hstart : forall k : Z * Z -> M W bool,
               bind (oracle_getPriceUSD E (priceOracle s) token) k r = k (price, d) r1).
    { intros k. unfold oracle_getPriceUSD, bind, log, ret.
      rewrite Hq. cbn [world emitted trace]. now rewrite Hprice, Hd. }
    unfold_priceCheck. rewrite Horacle. cbn [negb]. rewrite Hstart.
    split; [|split].
    + intros ->. reflexivity.
    + intros Hne Hrep. apply Z.eqb_neq in Hne. rewrite Hne.
      unfold is_uint in Hprice. apply andb_prop in Hprice as [Hp0 Hp1].
      apply Z.leb_le in Hp0, Hp1. apply Z.eqb_neq in Hne.
      destruct (normalizePrice_spec d (priceDecimals a) (price:=price)) as [Hs _];
        [lia | lia |].
      unfold bind, index, lift_option, ret.
      rewrite (Hs Hrep), Hlo. fold n.
      destruct (n <? lo) eqn:H1'.
      * apply Z.ltb_lt in H1'. replace (lo <=? n) with false
          by (symmetry; apply Z.leb_gt; lia). reflexivity.
      * apply Z.ltb_ge in H1'. replace (lo <=? n) with true
          by (symmetry; apply Z.leb_le; lia). cbn [andb]. rewrite Hhi.
        destruct (n >? hi) eqn:H2'.
        -- apply Z.gtb_lt in H2'. replace (n <=? hi) with false
             by (symmetry; apply Z.leb_gt; lia). reflexivity.
        -- rewrite Z.gtb_ltb in H2'. apply Z.ltb_ge in H2'.
           replace (n <=? hi) with true by (symmetry; apply Z.leb_le; lia).
           reflexivity.
    + intros Hne Hrep. apply Z.eqb_neq in Hne. rewrite Hne.
      unfold is_uint in Hprice. apply andb_prop in Hprice as [Hp0 Hp1].
      apply Z.leb_le in Hp0, Hp1. apply Z.eqb_neq in Hne.
      destruct (normalizePrice_spec d (priceDecimals a) (price:=price)) as [_ Hs];
        [lia | lia |].
      unfold bind, lift_option, revert. rewrite (Hs Hrep). reflexivity.
  - intros r1 Hcheck. unfold_sweepToken; unfold index, lift_option.
    rewrite Ht. unfold bind at 1, ret at 1. unfold bind at 1.
    rewrite Hcheck. cbn [negb]. unfold revert_or_continue, bind, emit, revert, ret.
    destruct (partialSuccess a); reflexivity.
  - intros e tr Hcheck. unfold_sweepToken; unfold index, lift_option.
    rewrite Ht. unfold bind at 1, ret at 1. unfold bind at 1.
    rewrite Hcheck. reflexivity.
Qed.

End PriceGate.
Lemma price_gate_witness :
  let a := Scenario.priced_batch 100 200 8 true in
  let r := Scenario.start (Scenario.quoted 12345 10) in
  nth_error (tokens a) 0 = Some Mock.tokenA /\
  nth_error (minPricesUSD a) 0 = Some 100 /\
  nth_error (maxPricesUSD a) 0 = Some 200 /\
  priceOracle (Mock.deployed true) <> 0 /\
  representable 12345 10 8 /\
  priceCheck (Mock.env Scenario.plain) (Mock.deployed true) a 0 Mock.tokenA r =
  Done true (mkRun (world r) []
                   [Query AtOracle Mock.oracle Mock.tokenA (Some [12345; 10])]).
Proof.
  intros a r.
  assert (Hor : priceOracle (Mock.deployed true) <> 0) by discriminate.
  assert (Hrep : representable 12345 10 8)
    by (split; apply Z.leb_le; reflexivity).
  assert (Hne : 12345 <> 0) by discriminate.
  split; [reflexivity|]. split; [reflexivity|]. split; [reflexivity|].
  split; [exact Hor|]. split; [exact Hrep|].
  exact (proj1 (proj2
           (proj1 (proj2
              (price_gate (Mock.env Scenario.plain) Mock.engine
                 (fun _ _ _ => Reverted Bubble []) (Mock.deployed true) Mock.user
                 a 0 r (token:=Mock.tokenA) (lo:=100) (hi:=200)
                 eq_refl eq_refl eq_refl))
              Hor 12345 10 eq_refl eq_refl eq_refl))
           Hne Hrep).
Defined.

(** C5 as stated fails where the arithmetic does not fit.  The oracle
    quotes [1] with precision 0 and the caller asks for precision 78: the
    specification's normalized price is [10^78], above every admissible
    maximum, so the gate should fail and a best-effort batch should report
    it and go on.  The engine's checked [10 ** 78] panics instead and the
    best-effort batch aborts as a whole. *)
Lemma price_gate_overflow_aborts :
  normalized_spec 1 0 78 = 10 ^ 78 /\
  (10 ^ 78 <=? uint_max 256) = false /\
  normalizePrice 1 0 78 = None /\
  Mock.run Scenario.plain (Mock.deployed true)
           (Scenario.priced_batch 0 (uint_max 256) 78 true) (Scenario.quoted 1 0) =
  Reverted (Panic 17) [Query AtOracle Mock.oracle Mock.tokenA (Some [1; 0])].
Proof.
  split; [vm_compute; reflexivity|].
  split; [vm_compute; reflexivity|].
  split; vm_compute; reflexivity.
Qed.

(** ** C2: the reentrancy lock *)

Section Lock.

Context {W : Type} (E : Env W) (this : address) (dec : bytes -> option string).

Abbreviation sweepAndSwap := (sweepAndSwap E this dec).
Abbreviation transact := (transact E this dec).
Abbreviation reentry := (reentry E this dec).
Abbreviation sweepToken := (sweepToken E this).
Abbreviation sweepLoop := (sweepLoop E this).

(** A busy engine turns every caller away before doing anything. *)
Lemma busy_engine_rejects depth s caller a w :
  _status s <> 1 ->
  sweepAndSwap depth s caller a w = Reverted (Error "REENTRANCY") [].
Proof.
  intros Hs. rewrite sweepAndSwap_unfold.
  unfold sweepAndSwap_with, nonReentrant.
  apply Z.eqb_neq in Hs. now rewrite Hs.
Qed.




End Lock.


(** The scenario of [test/sweeper.edge.test.js]: the reentrant mock is
    turned away, reverts, and the atomic batch aborts with the aggregator's
    failure. *)
Example reentrant_aggregator_blocked :
  Mock.run Scenario.reentrant (Mock.deployed false)
           (Scenario.single_batch Mock.tokenB false) (Scenario.funded Mock.tokenA 100) =
  Reverted (Error "AGGREGATOR_CALL_FAILED")
    [ Query AtUserBalance Mock.tokenA Mock.user (Some [100]);
      Call AtPull Mock.registry
           (EncPermit2TransferFrom Mock.user Mock.engine Mock.tokenA 100) 0 true (abi_word 1);
      Call AtApprove Mock.tokenA (EncApprove Mock.venue 100) 0 true (abi_word 1);
      Query AtBalBefore Mock.tokenB Mock.engine (Some [0]);
      Call AtAggregator Mock.venue (Raw (Mock.swap_payload Mock.tokenA Mock.tokenB 10))
           0 false [];
      Call AtRefund Mock.tokenA (EncTransfer Mock.user 100) 0 true (abi_word 1) ].
Proof. vm_compute. reflexivity. Qed.

(** The same aggregator under best-effort mode: the failure is reported
    and the pulled amount goes back. *)
Example reentrant_aggregator_reported :
  exists w' tr,
    Mock.run Scenario.reentrant (Mock.deployed false)
             (Scenario.single_batch Mock.tokenB true) (Scenario.funded Mock.tokenA 100) =
    Returned (Mock.deployed false) w'
             [SweepFailed Mock.user Mock.tokenA "AGGREGATOR_CALL_FAILED"] tr /\
    Mock.get w' (Mock.balance_slot Mock.tokenA Mock.user) = 100.
Proof. do 2 eexists. split; vm_compute; reflexivity. Qed.


(** ** C4: the two modes agree when nothing fails *)

Section Modes.

Context {W : Type} (E : Env W) (this : address) (dec : bytes -> option string).

Abbreviation sweepAndSwap := (sweepAndSwap E this dec).
Abbreviation reentry := (reentry E this dec).
Abbreviation sweepToken := (sweepToken E this).
Abbreviation sweepLoop := (sweepLoop E this).

Ltac reduce_mode :=
  unfold with_mode;
  cbn [permit2 permitCalldata tokens minPricesUSD maxPricesUSD priceDecimals
       targetToken swapCallData partialSuccess] in *.

(** One iteration in both modes, from the same state.  They differ only
    where best-effort reports a failure: there atomic mode aborts. *)
Lemma sweepToken_modes reenter s sender a i r :
  match sweepToken reenter s sender (with_mode a true) i r with
  | Done _ r' =>
      exists ev, emitted r' = emitted r ++ [ev] /\
        if is_failure ev
        then exists e tr, sweepToken reenter s sender (with_mode a false) i r = Fail e tr
        else sweepToken reenter s sender (with_mode a false) i r = Done tt r'
  | Fail e tr => sweepToken reenter s sender (with_mode a false) i r = Fail e tr
  end.
Proof.
  unfold_engine. reduce_mode.
  repeat (cbn [world emitted trace fst snd negb] in *; exec_step);
    cbn [world emitted trace fst snd negb] in *;
    first [ reflexivity
          | eexists; split; [reflexivity|]; cbn [is_failure];
            first [ reflexivity | do 2 eexists; reflexivity ] ].
Qed.

Lemma sweepLoop_modes reenter s sender a n : forall i r,
  match sweepLoop reenter s sender (with_mode a true) i n r with
  | Done _ r' =>
      exists evs, emitted r' = emitted r ++ evs /\
        if existsb is_failure evs
        then exists e tr, sweepLoop reenter s sender (with_mode a false) i n r = Fail e tr
        else sweepLoop reenter s sender (with_mode a false) i n r = Done tt r'
  | Fail _ _ => exists e tr, sweepLoop reenter s sender (with_mode a false) i n r = Fail e tr
  end.
Proof.
  induction n as [|n IH]; intros i r; step_loop.
  - unfold ret. exists []. rewrite app_nil_r. split; reflexivity.
  - unfold bind.
    pose proof (sweepToken_modes reenter s sender a i r) as Ht.
    destruct (sweepToken reenter s sender (with_mode a true) i r) as [[] r1|e tr].
    + destruct Ht as (ev & Hev & Ht).
      specialize (IH (S i) r1).
      destruct (is_failure ev) eqn:Hf.
      * destruct Ht as (e & tr & ->).
        destruct (sweepLoop reenter s sender (with_mode a true) (S i) n r1)
          as [[] r2|e2 tr2].
        -- destruct IH as (evs & Hevs & _). exists (ev :: evs). split.
           ++ rewrite Hevs, Hev, <- app_assoc. reflexivity.
           ++ cbn [existsb]. rewrite Hf. cbn. eauto.
        -- eauto.
      * rewrite Ht.
        destruct (sweepLoop reenter s sender (with_mode a true) (S i) n r1)
          as [[] r2|e2 tr2]; [|exact IH].
        destruct IH as (evs & Hevs & IH). exists (ev :: evs). split.
        -- rewrite Hevs, Hev, <- app_assoc. reflexivity.
        -- cbn [existsb]. rewrite Hf. exact IH.
    + rewrite Ht. eauto.
Qed.

Lemma relay_emits_nothing reenter a r r0 :
  (if Nat.ltb 0 (List.length (permitCalldata a))
   then _forwardPermit E this dec reenter (permit2 a) (permitCalldata a)
   else ret tt) r = Done tt r0 ->
  emitted r0 = emitted r.
Proof.
  destruct (Nat.ltb 0 (List.length (permitCalldata a))).
  - unfold _forwardPermit. unfold bind, low_call, ret, revert.
    destruct (call E reenter this (permit2 a) (Raw (permitCalldata a)) 0 (world r))
      as [[ok res] w'].
    destruct ok.
    + intros [= <-]. reflexivity.
    + destruct (_shortRevertReason dec res); discriminate.
  - intros [= <-]. reflexivity.
Qed.

(** The whole invocation in both modes. *)
Lemma sweepAndSwap_modes depth s sender a w :
  match sweepAndSwap depth s sender (with_mode a true) w with
  | Returned s' w' evs tr =>
      if existsb is_failure evs
      then succeeded (sweepAndSwap depth s sender (with_mode a false) w) = false
      else sweepAndSwap depth s sender (with_mode a false) w = Returned s' w' evs tr
  | Reverted _ _ => succeeded (sweepAndSwap depth s sender (with_mode a false) w) = false
  end.
Proof.
  destruct (Z.eq_dec (_status s) 1) as [Hs | Hs].
  2:{ rewrite !(busy_engine_rejects E this dec) by exact Hs. reflexivity. }
  destruct (lengths_agree a) eqn:Hlen.
  2:{ destruct (mismatch_reverts E this dec depth s sender
                  (with_mode a true) w Hlen) as (e1 & -> & _).
      destruct (mismatch_reverts E this dec depth s sender
                  (with_mode a false) w Hlen) as (e2 & -> & _).
      reflexivity. }
  rewrite !sweepAndSwap_admitted by assumption. reduce_mode.
  unfold bind.
  destruct ((if Nat.ltb 0 (List.length (permitCalldata a))
             then _forwardPermit E this dec (reentry depth (with_status s 2))
                    (permit2 a) (permitCalldata a)
             else ret tt) (mkRun w [] [])) as [[] r0|e tr] eqn:Hrelay;
    [|reflexivity].
  apply relay_emits_nothing in Hrelay. cbn [emitted] in Hrelay.
  pose proof (sweepLoop_modes (reentry depth (with_status s 2)) (with_status s 2)
                sender a (List.length (tokens a)) 0 r0) as H.
  unfold with_mode in H.
  destruct (sweepLoop (reentry depth (with_status s 2)) (with_status s 2) sender
              _ 0 (List.length (tokens a)) r0) as [[] r1|e tr].
  - destruct H as (evs & Hevs & H). cbn [conclude].
    rewrite Hevs, Hrelay. cbn [app].
    destruct (existsb is_failure evs).
    + destruct H as (e & tr & ->). reflexivity.
    + rewrite H. cbn [conclude]. now rewrite Hevs, Hrelay.
  - destruct H as (e' & tr' & ->). reflexivity.
Qed.

(** C4.  Take any request and run it in both modes from the same state.
    If the best-effort run returns and every asset succeeded (it emitted
    no [SweepFailed]), the atomic run returns the very same outcome: same
    final world (hence every party's balances), same events in the same
    order, same interactions.  Conversely an atomic run that returns is
    matched by the best-effort run, which then reports no failure. *)
Theorem mode_equivalence depth s sender a w s' w' evs tr :
  (sweepAndSwap depth s sender (with_mode a true) w = Returned s' w' evs tr ->
   existsb is_failure evs = false ->
   sweepAndSwap depth s sender (with_mode a false) w = Returned s' w' evs tr) /\
  (sweepAndSwap depth s sender (with_mode a false) w = Returned s' w' evs tr ->
   sweepAndSwap depth s sender (with_mode a true) w = Returned s' w' evs tr /\
   existsb is_failure evs = false).
Proof.
  pose proof (sweepAndSwap_modes depth s sender a w) as H.
  split.
  - intros Hbest Hok. rewrite Hbest in H. now rewrite Hok in H.
  - intros Hatomic. rewrite Hatomic in H.
    destruct (sweepAndSwap depth s sender (with_mode a true) w)
      as [s1 w1 evs1 tr1|e1 tr1]; [|discriminate H].
    destruct (existsb is_failure evs1) eqn:Hf; [discriminate H|].
    injection H as <- <- <- <-. split; [reflexivity | exact Hf].
Qed.

End Modes.

Lemma mode_equivalence_witness :
  exists s' w' tr,
    Mock.run Scenario.plain (Mock.deployed false) (Scenario.happy_batch true)
             Scenario.happy_world =
    Returned s' w' [Swept Mock.user Mock.tokenA 100 Mock.tokenB 10;
                    Swept Mock.user Mock.tokenC 50 Mock.tokenB 50] tr /\
    Mock.run Scenario.plain (Mock.deployed false) (Scenario.happy_batch false)
             Scenario.happy_world =
    Returned s' w' [Swept Mock.user Mock.tokenA 100 Mock.tokenB 10;
                    Swept Mock.user Mock.tokenC 50 Mock.tokenB 50] tr.
Proof.
  do 3 eexists.
  assert (Hbest : Mock.run Scenario.plain (Mock.deployed false)
                    (with_mode (Scenario.happy_batch true) true) Scenario.happy_world =
                  Returned _ _ [Swept Mock.user Mock.tokenA 100 Mock.tokenB 10;
                                Swept Mock.user Mock.tokenC 50 Mock.tokenB 50] _)
    by (vm_compute; reflexivity).
  split; [exact Hbest|].
  exact (proj1 (@mode_equivalence Mock.World (Mock.env Scenario.plain) Mock.engine
                  Mock.no_string_decoder 1024 (Mock.deployed false) Mock.user
                  (Scenario.happy_batch true) Scenario.happy_world _ _ _ _)
               Hbest eq_refl).
Defined.

(** ** C1, C3: where the pulled amount ends up *)

Section Settlement.

Context {W : Type} (E : Env W) (this : address) (dec : bytes -> option string).

Abbreviation sweepAndSwap := (sweepAndSwap E this dec).
Abbreviation reentry := (reentry E this dec).
Abbreviation sweepToken := (sweepToken E this).
Abbreviation sweepLoop := (sweepLoop E this).

Lemma firstn_succ_nth {A} (l : list A) i x :
  nth_error l i = Some x -> firstn (S i) l = firstn i l ++ [x].
Proof.
  revert i. induction l as [|y l IH]; intros [|i] H; try discriminate.
  - injection H as ->. reflexivity.
  - cbn [firstn app]. f_equal. apply IH. exact H.
Qed.





(** With the native sentinel as target there is no refund after a
    successful aggregator call, whatever arrived: the branch of lines
    191-202 has none. *)
Lemma sweepToken_native_never_refunds reenter s sender a i r token :
  targetToken a = 0 ->
  nth_error (tokens a) i = Some token ->
  match sweepToken reenter s sender a i r with
  | Done _ r' =>
      exists l ev,
        trace r' = trace r ++ l /\ emitted r' = emitted r ++ [ev] /\
        forall callee data res,
          In (Call AtAggregator callee data 0 true res) l ->
          native_outcome sender token l ev
  | Fail _ _ => True
  end.
Proof.
  intros Htarget Ht. apply Z.eqb_eq in Htarget.
  unfold_engine. rewrite Ht, Htarget.
  repeat (cbn [world emitted trace fst snd negb] in *; exec_step);
    cbn [world emitted trace fst snd negb] in *; trivial;
    flatten_trace;
    (eexists _, _; split; [reflexivity|]; split; [reflexivity|]);
    intros callee data' res Hin;
    first
      [ exfalso; cbn [In] in Hin;
        repeat (destruct Hin as [Hin | Hin]; [discriminate Hin|]); exact Hin
      | split;
        [ repeat constructor; discriminate
        | first [left; reflexivity | right; reflexivity] ] ].
Qed.

Lemma sweepToken_out_of_range reenter s sender a i r :
  nth_error (tokens a) i = None ->
  exists tr, sweepToken reenter s sender a i r = Fail (Panic 50) tr.
Proof.
  intros H. unfold_sweepToken; unfold index, lift_option, bind, revert.
  rewrite H. eexists; reflexivity.
Qed.


(** What the relay stage leaves: no event, and at most its own entry. *)
Lemma relay_stage reenter a w r0 :
  (if Nat.ltb 0 (List.length (permitCalldata a))
   then _forwardPermit E this dec reenter (permit2 a) (permitCalldata a)
   else ret tt) (mkRun w [] []) = Done tt r0 ->
  emitted r0 = [] /\ Forall (fun i => site_of i = AtForwardPermit) (trace r0).
Proof.
  destruct (Nat.ltb 0 (List.length (permitCalldata a))).
  - unfold _forwardPermit. unfold bind, low_call, ret, revert. cbn [world emitted trace].
    destruct (call E reenter this (permit2 a) (Raw (permitCalldata a)) 0 w)
      as [[ok res] w'].
    destruct ok.
    + intros [= <-]. split; [reflexivity | repeat constructor].
    + destruct (_shortRevertReason dec res); discriminate.
  - intros [= <-]. split; [reflexivity | constructor].
Qed.


End Settlement.



(** C3 at the native target.  The pull succeeds, the aggregator call
    succeeds, nothing arrives (the engine's native balance is zero): the
    engine refunds nothing and reports the asset as [Swept] with output 0;
    the 100 [tokenA] it pulled stay with it. *)
Example zero_output_native_not_refunded :
  exists s' w' tr,
    Mock.run Scenario.plain (Mock.deployed false) (Scenario.idle_batch 0 true)
             (Scenario.funded Mock.tokenA 100) =
    Returned s' w' [Swept Mock.user Mock.tokenA 100 0 0] tr /\
    Forall (fun i => site_of i <> AtRefund) tr /\
    Mock.get w' (Mock.balance_slot Mock.tokenA Mock.user) = 0 /\
    Mock.get w' (Mock.balance_slot Mock.tokenA Mock.engine) = 100.
Proof.
  do 3 eexists. split; [vm_compute; reflexivity|].
  split; [repeat constructor; discriminate|].
  split; vm_compute; reflexivity.
Qed.

(** The sibling branch, same batch with a token as target: the pulled
    amount goes back and the failure is reported. *)
Example zero_output_token_refunded :
  exists s' w' tr,
    Mock.run Scenario.plain (Mock.deployed false) (Scenario.idle_batch Mock.tokenB true)
             (Scenario.funded Mock.tokenA 100) =
    Returned s' w' [SweepFailed Mock.user Mock.tokenA "NO_TARGET_RECEIVED"] tr /\
    In (Call AtRefund Mock.tokenA (EncTransfer Mock.user 100) 0 true (abi_word 1)) tr /\
    Mock.get w' (Mock.balance_slot Mock.tokenA Mock.user) = 100 /\
    Mock.get w' (Mock.balance_slot Mock.tokenA Mock.engine) = 0.
Proof.
  do 3 eexists. split; [vm_compute; reflexivity|].
  split; [find_in_trace|].
  split; vm_compute; reflexivity.
Qed.

(** * Further properties: the rest of the contract, the mocks, the page *)

(** ** Why an invocation aborts *)

Section Taxonomy.

Context {W : Type} (E : Env W) (this : address) (dec : bytes -> option string).

Abbreviation sweepAndSwap := (sweepAndSwap E this dec).
Abbreviation reentry := (reentry E this dec).
Abbreviation sweepToken := (sweepToken E this).
Abbreviation sweepLoop := (sweepLoop E this).







End Taxonomy.

(** ** Configuration and the lock across transactions *)

Section LifecycleProofs.

Context {W : Type} (E : Env W) (this : address) (dec : bytes -> option string).








End LifecycleProofs.

(** ** Events and interactions of a batch *)

Section Batch.

Context {W : Type} (E : Env W) (this : address) (dec : bytes -> option string).

Abbreviation sweepAndSwap := (sweepAndSwap E this dec).
Abbreviation reentry := (reentry E this dec).
Abbreviation sweepToken := (sweepToken E this).
Abbreviation sweepLoop := (sweepLoop E this).

(** Turn the boolean tests met along a path into facts. *)
Ltac propify :=
  repeat match goal with
         | H : (_ =? _) = true |- _ => apply Z.eqb_eq in H
         | H : (_ =? _) = false |- _ => apply Z.eqb_neq in H
         | H : (_ >? _) = true |- _ => apply Z.gtb_lt in H
         | H : Nat.eqb (List.length _) 0 = false |- _ =>
             apply Nat.eqb_neq in H;
             rewrite length_zero_iff_nil in H
         | H : nth_error _ _ = Some _ |- _ => apply nth_error_In in H
         | H : wrapper_verdict _ _ = Some true |- _ =>
             apply wrapper_verdict_spec in H
         end.

Lemma with_mode_false a : partialSuccess a = false -> with_mode a false = a.
Proof. destruct a; cbn; intros ->; reflexivity. Qed.

Lemma sweepToken_event reenter s sender a i r token :
  nth_error (tokens a) i = Some token ->
  match sweepToken reenter s sender a i r with
  | Done _ r' =>
      exists ev, emitted r' = emitted r ++ [ev] /\
                 event_subject ev = (sender, token) /\ event_target_ok a ev
  | Fail _ _ => True
  end.
Proof.
  intros Ht. unfold_engine. rewrite Ht.
  repeat (cbn [world emitted trace fst snd negb] in *; exec_step);
    cbn [world emitted trace fst snd negb] in *; trivial;
    (eexists; split; [reflexivity|]; split; [reflexivity|]; cbn; auto).
Qed.

Lemma sweepLoop_events reenter s sender a n i r :
  map event_subject (emitted r) = map (pair sender) (firstn i (tokens a)) /\
  Forall (event_target_ok a) (emitted r) ->
  match sweepLoop reenter s sender a i n r with
  | Done _ r' =>
      map event_subject (emitted r') = map (pair sender) (firstn (i + n) (tokens a)) /\
      Forall (event_target_ok a) (emitted r')
  | Fail _ _ => True
  end.
Proof.
  apply (sweepLoop_inv E this
           (fun j r' =>
              map event_subject (emitted r') = map (pair sender) (firstn j (tokens a)) /\
              Forall (event_target_ok a) (emitted r'))
           (fun _ _ => True)).
  intros j r1 (Hm & HF).
  destruct (nth_error (tokens a) j) as [token|] eqn:Hn.
  - pose proof (sweepToken_event reenter s sender a j r1 Hn) as H.
    destruct (sweepToken reenter s sender a j r1) as [[] r2|e tr]; [|trivial].
    destruct H as (ev & He & Hs & Ht). rewrite He. split.
    + rewrite map_app, Hm, (firstn_succ_nth _ _ Hn), map_app. cbn [map].
      now rewrite Hs.
    + apply Forall_app. split; [exact HF | repeat constructor; exact Ht].
  - destruct (sweepToken_out_of_range E this reenter s sender a j r1 Hn) as (tr & ->).
    trivial.
Qed.

(** X4.  A batch that returns has emitted exactly one event per listed
    asset, in the order of the list, each naming the caller and that asset;
    every [Swept] names the batch's target; and in atomic mode every one of
    them is a [Swept]. *)
Theorem events_follow_the_asset_list depth s sender a w s' w' evs tr :
  sweepAndSwap depth s sender a w = Returned s' w' evs tr ->
  map event_subject evs = map (pair sender) (tokens a) /\
  Forall (event_target_ok a) evs /\
  (partialSuccess a = false -> Forall (fun ev => is_failure ev = false) evs).
Proof.
  intros Hrun. split; [|split].
  1,2: destruct (Z.eq_dec (_status s) 1) as [Hs | Hs];
       [|rewrite (busy_engine_rejects E this dec) in Hrun by exact Hs; discriminate];
       destruct (lengths_agree a) eqn:Hlen;
       [|destruct (mismatch_reverts E this dec depth s sender a w Hlen) as (e & He & _);
         rewrite He in Hrun; discriminate];
       rewrite sweepAndSwap_admitted in Hrun by assumption;
       unfold bind in Hrun;
       destruct ((if Nat.ltb 0 (List.length (permitCalldata a))
                  then _forwardPermit E this dec (reentry depth (with_status s 2))
                         (permit2 a) (permitCalldata a)
                  else ret tt) (mkRun w [] [])) as [[] r0|e0 tr0] eqn:Hrelay;
       [|discriminate];
       apply relay_stage in Hrelay as [Hev0 _];
       pose proof (@sweepLoop_events (reentry depth (with_status s 2)) (with_status s 2)
                     sender a (List.length (tokens a)) 0 r0) as H;
       rewrite Hev0 in H; specialize (H (conj eq_refl (Forall_nil _)));
       destruct (sweepLoop _ _ _ _ _ _ _) as [[] r1|e1 tr1]; [|discriminate];
       cbn [conclude] in Hrun; injection Hrun as _ _ <- _;
       cbn [plus] in H; rewrite firstn_all in H; tauto.
  intros Hmode.
  pose proof (sweepAndSwap_modes E this dec depth s sender a w) as H.
  rewrite (with_mode_false a Hmode), Hrun in H.
  destruct (sweepAndSwap depth s sender (with_mode a true) w)
    as [s1 w1 evs1 tr1|e1 tr1]; [|discriminate H].
  destruct (existsb is_failure evs1) eqn:Hf; [discriminate H|].
  injection H as _ _ <- _.
  apply Forall_forall. intros ev Hin.
  destruct (is_failure ev) eqn:Hev; [|reflexivity].
  assert (existsb is_failure evs = true) by (apply existsb_exists; eauto).
  congruence.
Qed.

Lemma sweepToken_disciplined reenter s sender a i r :
  match sweepToken reenter s sender a i r with
  | Done _ r' =>
      exists l, trace r' = trace r ++ l /\
                Forall (disciplined this sender s a) l /\ (List.length l <= 8)%nat
  | Fail _ tr =>
      exists l, tr = trace r ++ l /\
                Forall (disciplined this sender s a) l /\ (List.length l <= 8)%nat
  end.
Proof.
  exec; propify; flatten_trace;
    first
      [ exists []; rewrite app_nil_r; split; [reflexivity|];
        split; [constructor | cbn; lia]
      | eexists; split; [reflexivity|]; split;
        [ repeat (apply Forall_cons; [cbn; auto 8|]); apply Forall_nil
        | cbn; lia ] ].
Qed.

Lemma sweepLoop_disciplined reenter s sender a n : forall i r,
  match sweepLoop reenter s sender a i n r with
  | Done _ r' =>
      exists l, trace r' = trace r ++ l /\
                Forall (disciplined this sender s a) l /\ (List.length l <= 8 * n)%nat
  | Fail _ tr =>
      exists l, tr = trace r ++ l /\
                Forall (disciplined this sender s a) l /\ (List.length l <= 8 * n)%nat
  end.
Proof.
  induction n as [|n IH]; intros i r; step_loop.
  - unfold ret. exists []. rewrite app_nil_r. repeat split; [constructor | cbn; lia].
  - unfold bind.
    pose proof (sweepToken_disciplined reenter s sender a i r) as Ht.
    destruct (sweepToken reenter s sender a i r) as [[] r1|e tr].
    + destruct Ht as (l1 & H1 & HF1 & Hn1).
      specialize (IH (S i) r1).
      destruct (sweepLoop reenter s sender a (S i) n r1) as [[] r2|e tr];
        destruct IH as (l2 & H2 & HF2 & Hn2); exists (l1 ++ l2);
        (split; [rewrite H2, H1, app_assoc; reflexivity|];
         split; [apply Forall_app; auto | rewrite length_app; lia]).
    + destruct Ht as (l1 & H1 & HF1 & Hn1). exists l1.
      repeat split; auto. lia.
Qed.

Lemma sweepAndSwap_disciplined depth s sender a w :
  Forall (disciplined this sender s a) (outcome_trace (sweepAndSwap depth s sender a w)) /\
  (List.length (outcome_trace (sweepAndSwap depth s sender a w))
   <= 1 + 8 * List.length (tokens a))%nat.
Proof.
  destruct (Z.eq_dec (_status s) 1) as [Hs | Hs].
  2:{ rewrite (busy_engine_rejects E this dec) by exact Hs. cbn. split; [constructor | lia]. }
  destruct (lengths_agree a) eqn:Hlen.
  2:{ destruct (mismatch_reverts E this dec depth s sender a w Hlen) as (e & -> & _).
      cbn. split; [constructor | lia]. }
  rewrite sweepAndSwap_admitted by assumption.
  assert (Hloop : forall r0,
            (List.length (trace r0) <= 1)%nat ->
            Forall (disciplined this sender s a) (trace r0) ->
            let o := conclude s (sweepLoop (reentry depth (with_status s 2))
                                   (with_status s 2) sender a 0
                                   (List.length (tokens a)) r0) in
            Forall (disciplined this sender s a) (outcome_trace o) /\
            (List.length (outcome_trace o) <= 1 + 8 * List.length (tokens a))%nat).
  { intros r0 Hn0 HF0.
    pose proof (sweepLoop_disciplined (reentry depth (with_status s 2))
                  (with_status s 2) sender a (List.length (tokens a)) 0 r0) as H.
    destruct (sweepLoop _ _ _ _ _ _ _) as [[] r1|e1 tr1];
      destruct H as (l & H & HF & Hn); cbn [conclude outcome_trace]; rewrite H;
      (split; [apply Forall_app; split; [exact HF0 | exact HF]
              | rewrite length_app; lia]). }
  unfold _forwardPermit. unfold bind, low_call, ret, revert.
  destruct (Nat.ltb 0 (List.length (permitCalldata a))).
  - cbn [world emitted trace app].
    destruct (call E (reentry depth (with_status s 2)) this (permit2 a)
                (Raw (permitCalldata a)) 0 w) as [[ok res] w'].
    destruct ok; cbn [world emitted trace app].
    + apply Hloop; cbn; [lia | repeat constructor; auto].
    + destruct (_shortRevertReason dec res); cbn;
        (split; [repeat constructor; auto | lia]).
  - apply Hloop; cbn; [lia | constructor].
Qed.


(** X6.  A batch performs at most eight external interactions per listed
    asset, and one more for the permit relay. *)
Theorem interactions_are_bounded depth s sender a w :
  (List.length (outcome_trace (sweepAndSwap depth s sender a w))
   <= 1 + 8 * List.length (tokens a))%nat.
Proof. apply sweepAndSwap_disciplined. Qed.



Lemma ordered_app a l1 : forall p l2,
  ordered a p l1 -> ordered a (last_of p l1) l2 -> ordered a p (l1 ++ l2).
Proof.
  induction l1 as [|x l1 IH]; intros p l2 H1 H2; cbn in *; [exact H2|].
  destruct H1 as [Hx H1]. split; [exact Hx | apply IH; assumption].
Qed.

Lemma last_of_app l1 : forall p l2, last_of p (l1 ++ l2) = last_of (last_of p l1) l2.
Proof. induction l1 as [|x l1 IH]; intros p l2; cbn; [reflexivity | apply IH]. Qed.

(** Close a goal made of the facts met along the path. *)
Ltac fol :=
  solve [ assumption | reflexivity | exact I | lia | discriminate
        | split; fol | left; fol | right; fol | eexists; fol ].

Ltac order_leaf q :=
  unfold approved, venue_returned, balance_read;
  cbn [ordered last_of follows may_start iteration_over];
  fol.

Lemma sweepToken_ordered reenter s sender a i r :
  ordered a None (trace r) /\ may_start a (last_of None (trace r)) ->
  match sweepToken reenter s sender a i r with
  | Done _ r' => ordered a None (trace r') /\ may_start a (last_of None (trace r'))
  | Fail _ tr => ordered a None tr
  end.
Proof.
  intros [Hord Hq].
  exec; propify; flatten_trace;
    try assumption;
    first
      [ apply ordered_app; [assumption|];
        revert Hq; generalize (last_of None (trace r)); intros q Hq; order_leaf q
      | split;
        [ apply ordered_app; [assumption|]
        | rewrite last_of_app ];
        revert Hq; generalize (last_of None (trace r)); intros q Hq; order_leaf q ].
Qed.

Lemma sweepLoop_ordered reenter s sender a n : forall i r,
  ordered a None (trace r) /\ may_start a (last_of None (trace r)) ->
  match sweepLoop reenter s sender a i n r with
  | Done _ r' => ordered a None (trace r') /\ may_start a (last_of None (trace r'))
  | Fail _ tr => ordered a None tr
  end.
Proof.
  induction n as [|n IH]; intros i r Hr; step_loop.
  - unfold ret. exact Hr.
  - unfold bind.
    pose proof (@sweepToken_ordered reenter s sender a i r Hr) as Ht.
    destruct (sweepToken reenter s sender a i r) as [[] r1|e tr]; [|exact Ht].
    apply IH. exact Ht.
Qed.

(** X8.  Whatever the outcome, the external interactions of a batch come
    in the order of the code: the relay, if any, is the first one; the
    caller's balance of a token is read when an asset starts or right after
    the oracle quoted that token; tokens are pulled only right after that
    reading, for exactly the non-zero amount read; the aggregator is
    approved only right after a successful pull, for the token and the
    amount pulled; it is called only right after an accepted approval (or
    the reading of the target balance that follows one); the native
    proceeds are sent, and the target balance is read again, only right
    after the aggregator returned successfully; token proceeds are paid
    only right after that second reading; what is paid is positive; a
    refund is sent only right after a successful pull of that amount, a
    failed aggregator call or the second reading; and an asset starts only
    once the previous one is finished. *)
Theorem interactions_are_ordered depth s sender a w :
  ordered a None (outcome_trace (sweepAndSwap depth s sender a w)).
Proof.
  destruct (Z.eq_dec (_status s) 1) as [Hs | Hs].
  2:{ rewrite (busy_engine_rejects E this dec) by exact Hs. exact I. }
  destruct (lengths_agree a) eqn:Hlen.
  2:{ destruct (mismatch_reverts E this dec depth s sender a w Hlen) as (e & -> & _).
      exact I. }
  rewrite sweepAndSwap_admitted by assumption.
  assert (Hloop : forall r0,
            ordered a None (trace r0) /\ may_start a (last_of None (trace r0)) ->
            ordered a None
              (outcome_trace
                 (conclude s (sweepLoop (reentry depth (with_status s 2))
                                (with_status s 2) sender a 0
                                (List.length (tokens a)) r0)))).
  { intros r0 H0.
    pose proof (sweepLoop_ordered (reentry depth (with_status s 2))
                  (with_status s 2) sender a (List.length (tokens a)) 0 r0 H0) as H.
    destruct (sweepLoop _ _ _ _ _ _ _) as [[] r1|e1 tr1];
      cbn [conclude outcome_trace]; [exact (proj1 H) | exact H]. }
  unfold _forwardPermit. unfold bind, low_call, ret, revert.
  destruct (Nat.ltb 0 (List.length (permitCalldata a))).
  - cbn [world emitted trace app].
    destruct (call E (reentry depth (with_status s 2)) this (permit2 a)
                (Raw (permitCalldata a)) 0 w) as [[ok res] w'].
    destruct ok; cbn [world emitted trace app].
    + apply Hloop; cbn; repeat split.
    + destruct (_shortRevertReason dec res); cbn; repeat split.
  - apply Hloop; cbn; repeat split.
Qed.

Lemma sweepToken_sound reenter s sender a i r :
  Forall (event_sound a) (emitted r) ->
  match sweepToken reenter s sender a i r with
  | Done _ r' => Forall (event_sound a) (emitted r')
  | Fail _ _ => True
  end.
Proof.
  intros Hev.
  exec; propify; trivial;
    (apply Forall_app; split; [assumption|]);
    (apply Forall_cons; [|constructor]);
    cbn [event_sound failure_reports In];
    first
      [ solve [repeat (first [left; reflexivity | right])]
      | repeat split; intros; first [assumption | lia | congruence | contradiction] ].
Qed.

(** X9.  The events of a batch that returns are sound: a [SweepFailed]
    carries one of the seven reasons of the loop; a [Swept] reports the
    non-zero balance that was pulled and an amount out that is never
    negative and, when the target is a token, positive. *)
Theorem events_are_sound depth s sender a w s' w' evs tr :
  sweepAndSwap depth s sender a w = Returned s' w' evs tr ->
  Forall (event_sound a) evs.
Proof.
  intros Hrun.
  destruct (Z.eq_dec (_status s) 1) as [Hs | Hs].
  2:{ rewrite (busy_engine_rejects E this dec) in Hrun by exact Hs. discriminate. }
  destruct (lengths_agree a) eqn:Hlen.
  2:{ destruct (mismatch_reverts E this dec depth s sender a w Hlen) as (e & He & _).
      rewrite He in Hrun. discriminate. }
  rewrite sweepAndSwap_admitted in Hrun by assumption.
  unfold bind in Hrun.
  destruct ((if Nat.ltb 0 (List.length (permitCalldata a))
             then _forwardPermit E this dec (reentry depth (with_status s 2))
                    (permit2 a) (permitCalldata a)
             else ret tt) (mkRun w [] [])) as [[] r0|e0 tr0] eqn:Hrelay;
    [|discriminate].
  apply relay_emits_nothing in Hrelay. cbn in Hrelay.
  pose proof (sweepLoop_inv E this
                (fun _ r' => Forall (event_sound a) (emitted r'))
                (fun _ _ => True)
                (reentry depth (with_status s 2)) (with_status s 2) sender a
                (fun j r1 => @sweepToken_sound _ _ sender a j r1)
                (List.length (tokens a)) 0 r0) as H.
  cbv beta in H. rewrite Hrelay in H. specialize (H (Forall_nil _)).
  destruct (sweepLoop _ _ _ _ _ _ _) as [[] r1|e1 tr1]; [|discriminate].
  cbn in Hrun. injection Hrun as <- <- <- <-. exact H.
Qed.





(** X11.  A relay that the registry refuses with fewer than 68 bytes of
    return data aborts the batch at once, in either mode, with the bare
    reason of the relay: no asset is looked at and the refused call is the
    only interaction. *)
Theorem refused_relay_aborts_batch depth s sender a w res w' :
  _status s = 1 ->
  lengths_agree a = true ->
  permitCalldata a <> [] ->
  call E (reentry depth (with_status s 2)) this (permit2 a)
       (Raw (permitCalldata a)) 0 w = (false, res, w') ->
  (List.length res < 68)%nat ->
  sweepAndSwap depth s sender a w =
  Reverted (Error "PERMIT_CALL_FAILED:")
           [Call AtForwardPermit (permit2 a) (Raw (permitCalldata a)) 0 false res].
Proof.
  intros Hs Hlen Hdata Hcall Hshort.
  rewrite sweepAndSwap_admitted by assumption.
  destruct (permitCalldata a) as [|b bs] eqn:Hp; [contradiction|].
  cbn [List.length Nat.ltb Nat.leb].
  unfold _forwardPermit. unfold bind, low_call, ret, revert.
  cbn [world emitted trace app].
  rewrite Hcall. cbn [world emitted trace app].
  unfold _shortRevertReason.
  apply Nat.ltb_lt in Hshort. rewrite Hshort. reflexivity.
Qed.





End Batch.

(** ** The mocks *)

Section Mocks.
Import Mock.

Lemma key_eqb_eq k1 : forall k2, key_eqb k1 k2 = true <-> k1 = k2.
Proof.
  induction k1 as [|x k1 IH]; intros [|y k2]; cbn; split; try congruence.
  - intros H. apply andb_prop in H as [Hx Hk].
    apply Z.eqb_eq in Hx. apply IH in Hk. congruence.
  - intros [= -> ->]. rewrite Z.eqb_refl. apply IH. reflexivity.
Qed.

Lemma key_eqb_neq k1 k2 : k1 <> k2 -> key_eqb k1 k2 = false.
Proof.
  intros H. destruct (key_eqb k1 k2) eqn:E; [|reflexivity].
  apply key_eqb_eq in E. contradiction.
Qed.

Lemma get_put w k v k' :
  get (put w k v) k' = if key_eqb k' k then v else get w k'.
Proof.
  induction w as [|[k0 v0] w IH]; cbn; [reflexivity|].
  destruct (key_eqb k k0) eqn:Hk; cbn.
  - apply key_eqb_eq in Hk. subst k0.
    destruct (key_eqb k' k); reflexivity.
  - rewrite IH. destruct (key_eqb k' k0) eqn:H0; [|reflexivity].
    destruct (key_eqb k' k) eqn:H1; [|reflexivity].
    apply key_eqb_eq in H0, H1. subst. rewrite (proj2 (key_eqb_eq k0 k0) eq_refl) in Hk.
    discriminate.
Qed.

(** Read a slot of a store that was written to. *)
Ltac slots :=
  rewrite ?get_put;
  unfold balance_slot, allowance_slot, ether_slot, price_slot, decimals_slot,
         lastAmountIn_slot, callback_failed_slot;
  cbn [key_eqb Z.eqb Pos.eqb andb];
  rewrite ?Z.eqb_refl; cbn [andb].

Lemma erc20_move_spec w token from to amount :
  let moved := if from =? to then 0 else amount in
  match erc20_move w token from to amount with
  | Some w' =>
      amount <= get w (balance_slot token from) /\
      get w' (balance_slot token from) = get w (balance_slot token from) - moved /\
      get w' (balance_slot token to) = get w (balance_slot token to) + moved /\
      (forall k, k <> balance_slot token from -> k <> balance_slot token to ->
                 get w' k = get w k)
  | None =>
      get w (balance_slot token from) < amount \/
      uint_max 256 < get w (balance_slot token to) + moved
  end.
Proof.
  intros moved. subst moved. unfold erc20_move, erc20_mint.
  destruct (get w (balance_slot token from) >=? amount) eqn:Hb.
  2:{ left. rewrite Z.geb_leb in Hb. apply Z.leb_gt in Hb. exact Hb. }
  rewrite Z.geb_leb in Hb. apply Z.leb_le in Hb.
  match goal with |- context [if ?c then Some _ else None] => destruct c eqn:Hm end.
  - split; [exact Hb|].
    split; [|split].
    + slots. rewrite (Z.eqb_sym from to). destruct (to =? from); cbn [andb]; lia.
    + slots. destruct (from =? to) eqn:Hft; cbn [andb].
      * apply Z.eqb_eq in Hft. subst to. rewrite Z.eqb_refl. cbn [andb]. lia.
      * rewrite (Z.eqb_sym to from), Hft. cbn [andb]. lia.
    + intros k Hf Ht. rewrite !get_put.
      rewrite (key_eqb_neq Ht), (key_eqb_neq Hf). reflexivity.
  - right. apply Z.leb_gt in Hm. revert Hm. slots.
    destruct (from =? to) eqn:Hft; cbn [andb].
    + apply Z.eqb_eq in Hft. subst to. rewrite Z.eqb_refl. cbn [andb]. lia.
    + rewrite (Z.eqb_sym to from), Hft. cbn [andb]. lia.
Qed.

(** X13.  [MockERC20.transfer] conserves the token: when it succeeds the
    sender held the amount, the sender's balance goes down and the
    receiver's up by the amount (neither moves when they are the same
    account), and no other slot of the chain changes; it fails only when
    the sender holds less than the amount or the receiver's balance would
    leave [uint256]. *)
Theorem transfer_conserves w token from to amount :
  let moved := if from =? to then 0 else amount in
  match erc20_move w token from to amount with
  | Some w' =>
      amount <= get w (balance_slot token from) /\
      get w' (balance_slot token from) = get w (balance_slot token from) - moved /\
      get w' (balance_slot token to) = get w (balance_slot token to) + moved /\
      (forall k, k <> balance_slot token from -> k <> balance_slot token to ->
                 get w' k = get w k)
  | None =>
      get w (balance_slot token from) < amount \/
      uint_max 256 < get w (balance_slot token to) + moved
  end.
Proof. apply erc20_move_spec. Qed.

Lemma erc20_transferFrom_spec w token caller from to amount w' :
  erc20_transferFrom w token caller from to amount = Some w' ->
  let spent := if from =? caller then 0 else amount in
  let moved := if from =? to then 0 else amount in
  (from <> caller -> amount <= get w (allowance_slot token from caller)) /\
  get w' (allowance_slot token from caller) =
    get w (allowance_slot token from caller) - spent /\
  amount <= get w (balance_slot token from) /\
  get w' (balance_slot token from) = get w (balance_slot token from) - moved /\
  get w' (balance_slot token to) = get w (balance_slot token to) + moved /\
  (forall k, k <> allowance_slot token from caller ->
             k <> balance_slot token from -> k <> balance_slot token to ->
             get w' k = get w k).
Proof.
  intros H spent moved. subst spent moved. unfold erc20_transferFrom in H.
  assert (Hslot : forall h, key_eqb (allowance_slot token from caller)
                                    (balance_slot token h) = false)
    by (intros h; reflexivity).
  assert (Hslot' : forall h, key_eqb (balance_slot token h)
                                     (allowance_slot token from caller) = false)
    by (intros h; reflexivity).
  destruct (from =? caller) eqn:Hfc.
  - pose proof (erc20_move_spec w token from to amount) as T.
    rewrite H in T. destruct T as (Hb & Hf & Ht & Hk).
    split; [intros Hne; apply Z.eqb_eq in Hfc; contradiction|].
    split; [rewrite Hk; [lia | |]; intros E; apply key_eqb_eq in E;
            rewrite Hslot in E; discriminate|].
    repeat split; try assumption. intros k _. apply Hk.
  - destruct (get w (allowance_slot token from caller) >=? amount) eqn:Ha;
      [|discriminate].
    rewrite Z.geb_leb in Ha. apply Z.leb_le in Ha.
    set (w1 := put w (allowance_slot token from caller)
                   (get w (allowance_slot token from caller) - amount)) in *.
    pose proof (erc20_move_spec w1 token from to amount) as T.
    rewrite H in T. destruct T as (Hb & Hf & Ht & Hk).
    assert (Hbal : forall h, get w1 (balance_slot token h) = get w (balance_slot token h)).
    { intros h. unfold w1. rewrite get_put, Hslot'. reflexivity. }
    rewrite !Hbal in *.
    split; [intros _; exact Ha|].
    split.
    { rewrite Hk.
      - unfold w1. rewrite get_put, (proj2 (key_eqb_eq _ _) eq_refl). reflexivity.
      - intros E; apply key_eqb_eq in E; rewrite Hslot in E; discriminate.
      - intros E; apply key_eqb_eq in E; rewrite Hslot in E; discriminate. }
    repeat split; try assumption.
    intros k Hka Hkf Hkt. rewrite Hk by assumption.
    unfold w1. rewrite get_put, (key_eqb_neq Hka). reflexivity.
Qed.

(** X14.  [MockERC20.transferFrom] charges the allowance: a spender other
    than the holder needs an allowance of at least the amount and is left
    with exactly that much less; the holder needs none and keeps the
    allowances as they are; the balances move as in a transfer and no
    other slot of the chain changes. *)
Theorem transferFrom_spends_allowance w token caller from to amount w' :
  erc20_transferFrom w token caller from to amount = Some w' ->
  let spent := if from =? caller then 0 else amount in
  let moved := if from =? to then 0 else amount in
  (from <> caller -> amount <= get w (allowance_slot token from caller)) /\
  get w' (allowance_slot token from caller) =
    get w (allowance_slot token from caller) - spent /\
  amount <= get w (balance_slot token from) /\
  get w' (balance_slot token from) = get w (balance_slot token from) - moved /\
  get w' (balance_slot token to) = get w (balance_slot token to) + moved /\
  (forall k, k <> allowance_slot token from caller ->
             k <> balance_slot token from -> k <> balance_slot token to ->
             get w' k = get w k).
Proof. apply erc20_transferFrom_spec. Qed.


(** X16.  [MockPriceOracle]: what [getPriceUSD] answers is what [setPrice]
    stored last for that token; the quotes of the other tokens and every
    balance and allowance stay as they were. *)
Theorem setPrice_getPriceUSD sc w token p d :
  let w' := MockPriceOracle.setPrice w token p d in
  (forall token',
     getPriceUSD (env sc) w' oracle token' =
     if token' =? token then Some (p, d) else getPriceUSD (env sc) w oracle token') /\
  (forall t h, get w' (balance_slot t h) = get w (balance_slot t h)) /\
  (forall t h sp, get w' (allowance_slot t h sp) = get w (allowance_slot t h sp)).
Proof.
  intros w'. subst w'. unfold MockPriceOracle.setPrice.
  repeat split.
  - intros token'. cbn [getPriceUSD env]. rewrite Z.eqb_refl. slots.
    destruct (token' =? token); reflexivity.
  - intros t h. slots. reflexivity.
  - intros t h sp. slots. reflexivity.
Qed.

End Mocks.

(** ** The page *)

Section PageProofs.

Lemma mapJs_length {A B} (f : A -> Page.Js B) l : forall l',
  Page.mapJs f l = inl l' -> List.length l' = List.length l.
Proof.
  induction l as [|x l IH]; intros l'; cbn.
  - intros [= <-]. reflexivity.
  - destruct (f x) as [y|e]; cbn; [|discriminate].
    destruct (Page.mapJs f l) as [ys|e]; cbn; [|discriminate].
    intros [= <-]. cbn. f_equal. apply IH. reflexivity.
Qed.

Lemma mapJs_throws {A B} (f : A -> Page.Js B) l x e :
  In x l -> f x = inr e -> exists e', Page.mapJs f l = inr e'.
Proof.
  induction l as [|y l IH]; intros Hin Hx; [contradiction|].
  cbn. destruct Hin as [-> | Hin].
  - rewrite Hx. cbn. eauto.
  - destruct (f y) as [z|e1]; cbn; [|eauto].
    destruct (IH Hin Hx) as (e' & ->). cbn. eauto.
Qed.

Lemma mapJs_all {A B} (f : A -> Page.Js B) l : forall l',
  Page.mapJs f l = inl l' -> Forall2 (fun x y => f x = inl y) l l'.
Proof.
  induction l as [|x l IH]; intros l'; cbn.
  - intros [= <-]. constructor.
  - destruct (f x) as [y|e] eqn:Hx; cbn; [|discriminate].
    destruct (Page.mapJs f l) as [ys|e]; cbn; [|discriminate].
    intros [= <-]. constructor; [exact Hx | apply IH; reflexivity].
Qed.

Lemma swapCallData_of_pushed s :
  Page.pushed s ->
  match Page.swapCallData_of s with
  | inl d => d = Page.JsString "0x" /\ exists addr err, s = Page.unbuilt addr err
  | inr _ => exists addr swap, s = Page.built addr swap
  end.
Proof.
  intros [addr to data value eo eg an ad raw | addr err]; cbn.
  - eauto.
  - split; [reflexivity | eauto].
Qed.

Lemma collect_returns ethers targetToken chainId swapCalls arrs :
  Page.collect ethers targetToken chainId swapCalls = inl arrs ->
  Page.mapJs (fun s => Page.member s "token") swapCalls = inl (Page.tokensArr arrs) /\
  Page.minPrices arrs = map (fun _ => Page.JsNumber 0) (Page.tokensArr arrs) /\
  Page.mapJs (fun _ => Page.bindJs (Page.member ethers "constants")
                         (fun c => Page.member c "MaxUint256")) (Page.tokensArr arrs)
    = inl (Page.maxPrices arrs) /\
  Page.priceDecimals arrs = Page.JsNumber 8 /\
  Page.mapJs Page.swapCallData_of swapCalls = inl (Page.swapCallData arrs).
Proof.
  unfold Page.collect.
  destruct (Page.mapJs (fun s => Page.member s "token") swapCalls) as [ts|e]; cbn [Page.bindJs];
    [|discriminate].
  destruct (Page.mapJs _ ts) as [hi|e] eqn:Hhi; cbn [Page.bindJs]; [|discriminate].
  match goal with
  | |- Page.bindJs ?m _ = _ -> _ => destruct m as [target|e]; cbn [Page.bindJs]; [|discriminate]
  end.
  destruct (Page.mapJs Page.swapCallData_of swapCalls) as [ds|e]; cbn [Page.bindJs]; [|discriminate].
  intros [= <-]. cbn. repeat split; first [reflexivity | exact Hhi].
Qed.

(** X17.  The page cannot submit a swap it has built: the object
    [buildSwapTx] returns has no [swap] property, so for a batch with such
    an entry the expression that collects the call data reads [.data] of
    [undefined] and throws a [TypeError], before the handler reaches the
    call of [sweepAndSwap]. *)
Theorem page_never_submits_a_built_swap ethers targetToken chainId swapCalls
    addr to data value expectedAmountOut estimatedGas approveNeeded approveData raw :
  In (Page.built addr (Page.swapTx to data value expectedAmountOut estimatedGas
                         approveNeeded approveData raw)) swapCalls ->
  Page.collect ethers targetToken chainId swapCalls = inr Page.TypeError.
Proof.
  intros Hin.
  destruct (Page.collect ethers targetToken chainId swapCalls) as [arrs|[]] eqn:Hc;
    [exfalso | reflexivity].
  apply collect_returns in Hc. destruct Hc as (_ & _ & _ & _ & Hd).
  destruct (@mapJs_throws _ _ Page.swapCallData_of swapCalls _ Page.TypeError Hin eq_refl)
    as (e & He).
  congruence.
Qed.

(** X18.  What the page does submit passes the length checks of the
    engine: the four arrays it collects have one entry per asset of
    [swapCalls], the minimum prices are all 0 and the prices are in 8
    decimals; and as every entry [handleSweep] pushed either holds a built
    swap or none, the call data submitted is the empty ['0x'] for every
    asset. *)
Theorem submitted_arrays_agree ethers targetToken chainId swapCalls arrs :
  Page.collect ethers targetToken chainId swapCalls = inl arrs ->
  List.length (Page.tokensArr arrs) = List.length swapCalls /\
  List.length (Page.minPrices arrs) = List.length swapCalls /\
  List.length (Page.maxPrices arrs) = List.length swapCalls /\
  List.length (Page.swapCallData arrs) = List.length swapCalls /\
  Forall (fun lo => lo = Page.JsNumber 0) (Page.minPrices arrs) /\
  Page.priceDecimals arrs = Page.JsNumber 8 /\
  (Forall Page.pushed swapCalls ->
   Page.swapCallData arrs = map (fun _ => Page.JsString "0x") swapCalls) /\
  (forall a : SweepArgs,
     List.length (tokens a) = List.length (Page.tokensArr arrs) ->
     List.length (minPricesUSD a) = List.length (Page.minPrices arrs) ->
     List.length (maxPricesUSD a) = List.length (Page.maxPrices arrs) ->
     List.length (swapCallData a) = List.length (Page.swapCallData arrs) ->
     lengths_agree a = true).
Proof.
  intros Hc. apply collect_returns in Hc.
  destruct Hc as (Ht & Hlo & Hhi & Hd & Hs).
  pose proof (mapJs_length _ _ Ht) as Lt.
  pose proof (mapJs_length _ _ Hhi) as Lhi.
  pose proof (mapJs_length _ _ Hs) as Ls.
  repeat split.
  - exact Lt.
  - rewrite Hlo, length_map. exact Lt.
  - rewrite Lhi. exact Lt.
  - exact Ls.
  - rewrite Hlo. apply Forall_forall. intros lo Hin.
    apply in_map_iff in Hin as (x & <- & _). reflexivity.
  - exact Hd.
  - intros Hp. apply mapJs_all in Hs. clear Ht Lt Ls.
    revert Hp. induction Hs as [|s d l l' Hsd Hs IH]; intros Hp; [reflexivity|].
    apply Forall_cons_iff in Hp as [Hps Hp]. cbn. f_equal; [|apply IH; exact Hp].
    apply swapCallData_of_pushed in Hps. rewrite Hsd in Hps. apply Hps.
  - intros a H1 H2 H3 H4. unfold lengths_agree.
    rewrite H1, H2, H3, H4, Lhi, Ls, Hlo, length_map, Lt, !Nat.eqb_refl. reflexivity.
Qed.

End PageProofs.

(** ** The properties on concrete runs *)


Lemma events_follow_the_asset_list_witness :
  let a := Scenario.happy_batch true in
  match Mock.run Scenario.plain (Mock.deployed false) a Scenario.happy_world with
  | Returned _ _ evs _ =>
      map event_subject evs = map (pair Mock.user) (tokens a) /\
      Forall (event_target_ok a) evs /\
      (partialSuccess a = false -> Forall (fun ev => is_failure ev = false) evs)
  | Reverted _ _ => False
  end.
Proof.
  intros a. unfold Mock.run.
  destruct (sweepAndSwap (Mock.env Scenario.plain) Mock.engine
              Mock.no_string_decoder 1024 (Mock.deployed false) Mock.user a
              Scenario.happy_world) as [s' w' evs tr|e tr] eqn:H.
  - exact (@events_follow_the_asset_list _ (Mock.env Scenario.plain) Mock.engine
             Mock.no_string_decoder 1024 (Mock.deployed false) Mock.user a
             Scenario.happy_world s' w' evs tr H).
  - vm_compute in H. discriminate H.
Defined.


Lemma events_are_sound_witness :
  let a := Scenario.mixed_batch true in
  match Mock.run Scenario.plain (Mock.deployed false) a Scenario.happy_world with
  | Returned _ _ evs _ => Forall (event_sound a) evs
  | Reverted _ _ => False
  end.
Proof.
  intros a. unfold Mock.run.
  destruct (sweepAndSwap (Mock.env Scenario.plain) Mock.engine
              Mock.no_string_decoder 1024 (Mock.deployed false) Mock.user a
              Scenario.happy_world) as [s' w' evs tr|e tr] eqn:H.
  - exact (@events_are_sound _ (Mock.env Scenario.plain) Mock.engine
             Mock.no_string_decoder 1024 (Mock.deployed false) Mock.user a
             Scenario.happy_world s' w' evs tr H).
  - vm_compute in H. discriminate H.
Defined.


Lemma refused_relay_aborts_batch_witness :
  sweepAndSwap (Mock.env Scenario.strict_registry) Mock.engine Mock.no_string_decoder
    1024 (Mock.deployed false) Mock.user Scenario.permit_batch Scenario.happy_world =
  Reverted (Error "PERMIT_CALL_FAILED:")
           [Call AtForwardPermit Mock.registry (Raw Scenario.permit_payload) 0 false []].
Proof.
  exact (@refused_relay_aborts_batch _ (Mock.env Scenario.strict_registry) Mock.engine
           Mock.no_string_decoder 1024 (Mock.deployed false) Mock.user
           Scenario.permit_batch Scenario.happy_world [] Scenario.happy_world
           eq_refl eq_refl
           (fun H : Scenario.permit_payload = [] =>
              eq_ind Scenario.permit_payload
                     (fun l => match l with [] => False | _ :: _ => True end)
                     I [] H)
           eq_refl (Nat.lt_0_succ 67)).
Defined.


Lemma transferFrom_spends_allowance_witness :
  match Mock.erc20_transferFrom (Scenario.funded Mock.tokenA 100) Mock.tokenA
          Mock.registry Mock.user Mock.engine 40 with
  | Some w' =>
      Mock.get w' (Mock.allowance_slot Mock.tokenA Mock.user Mock.registry) = 60 /\
      Mock.get w' (Mock.balance_slot Mock.tokenA Mock.user) = 60 /\
      Mock.get w' (Mock.balance_slot Mock.tokenA Mock.engine) = 40
  | None => False
  end.
Proof.
  destruct (Mock.erc20_transferFrom (Scenario.funded Mock.tokenA 100) Mock.tokenA
              Mock.registry Mock.user Mock.engine 40) as [w'|] eqn:H.
  - destruct (@transferFrom_spends_allowance (Scenario.funded Mock.tokenA 100)
                Mock.tokenA Mock.registry Mock.user Mock.engine 40 w' H)
      as (_ & Ha & _ & Hf & Ht & _).
    rewrite Ha, Hf, Ht. split; [reflexivity|]. split; reflexivity.
  - vm_compute in H. discriminate H.
Defined.


Lemma page_never_submits_a_built_swap_witness :
  Page.collect Sample.ethers5 (Page.JsString "USDC") (Page.JsNumber 137)
               [Sample.unbuilt_call; Sample.built_call] = inr Page.TypeError.
Proof.
  exact (@page_never_submits_a_built_swap Sample.ethers5 (Page.JsString "USDC")
           (Page.JsNumber 137) [Sample.unbuilt_call; Sample.built_call]
           (Page.JsString "0xA") (Page.JsString "0xRouter") (Page.JsString "0x12aa3caf")
           (Page.JsString "0") Page.JsNull Page.JsNull (Page.JsBool true)
           (Page.JsString "0x095ea7b3") (Page.JsObject [])
           (or_intror (or_introl eq_refl))).
Defined.

Lemma submitted_arrays_agree_witness :
  match Page.collect Sample.ethers5 (Page.JsString "ETH") (Page.JsNumber 137)
                     [Sample.unbuilt_call] with
  | inl arrs =>
      List.length (Page.maxPrices arrs) = 1%nat /\
      Page.swapCallData arrs = [Page.JsString "0x"]
  | inr _ => False
  end.
Proof.
  destruct (Page.collect Sample.ethers5 (Page.JsString "ETH") (Page.JsNumber 137)
                         [Sample.unbuilt_call]) as [arrs|e] eqn:H.
  - destruct (@submitted_arrays_agree Sample.ethers5 (Page.JsString "ETH")
                (Page.JsNumber 137) [Sample.unbuilt_call] arrs H)
      as (_ & _ & Hhi & _ & _ & _ & Hd & _).
    split; [exact Hhi|].
    apply Hd. repeat constructor.
  - vm_compute in H. discriminate H.
Defined.
